(** * Agenda telefonica: the REST server over its two-table store

    A shallow embedding of [server.js] (the Express handlers, which follow
    the browser controller in [src/public/app.js]) and of the schema of
    [database.js], with the properties of the specification stated over it.

    Modelling conventions.
    - A JavaScript string is a [texto]: the list of its code units, here the
      8-bit range of [ascii].  The request fields are taken at the types the
      handlers expect: [nome] a string, [idade] [null] or an integer that a
      JavaScript number holds exactly, [telefones] an array of strings.
    - The SQLite store is two tables kept in rowid order, with the two
      AUTOINCREMENT counters.  Each SQL statement of the handlers is a
      function on the store; the foreign key of [Telefone] is enforced by the
      store itself ([PRAGMA foreign_keys = ON]) and its [ON DELETE CASCADE]
      is part of [DELETE FROM Contato].  GROUP_CONCAT takes the rows of a
      group in rowid order and ORDER BY keeps rows of equal name in the order
      of their ids; SQLite promises neither order, and they matter below
      only where a phone array is given element by element.  I/O failures
      and size limits of the engine are not modelled.
    - A route parameter [:id] is the integer the store compares the column
      [ID] with.
    - A handler is a function from the state (store and deletion log) to the
      new state and the HTTP response; the clock reading of [gravarLog] is an
      argument.  Requests are handled one after the other; the invariants
      of the store are proved statement by statement as well.
    - [Rotas] has the routes in the order of their registration. *)

From Stdlib Require Import Ascii String List ZArith Lia Bool Arith.
From Stdlib Require Import Permutation Sorted DecimalString DecimalPos DecimalZ.
Import ListNotations.

Set Implicit Arguments.

(** ** JavaScript strings *)

Definition texto := list ascii.

Definition txt (s : string) : texto := list_ascii_of_string s.

Module JS.

Definition codigo (c : ascii) : nat := nat_of_ascii c.

(** [\d] without the unicode flag: the ten ASCII digits. *)
Definition eh_digito (c : ascii) : bool :=
  (48 <=? codigo c) && (codigo c <=? 57).

(** [\D] *)
Definition nao_digito (c : ascii) : bool := negb (eh_digito c).

(** White space and line terminators removed by [String.prototype.trim],
    restricted to the 8-bit range: TAB, LF, VT, FF, CR, SP, NBSP. *)
Definition eh_branco (c : ascii) : bool :=
  let n := codigo c in
  ((9 <=? n) && (n <=? 13)) || (n =? 32) || (n =? 160).

Fixpoint trimStart (s : texto) : texto :=
  match s with
  | [] => []
  | c :: r => if eh_branco c then trimStart r else s
  end.

Definition trimEnd (s : texto) : texto := rev (trimStart (rev s)).

(** [s.trim()] *)
Definition trim (s : texto) : texto := trimEnd (trimStart s).

(** [s.substring(0, n)] *)
Definition substring0 (n : nat) (s : texto) : texto := firstn n s.

(** [s.replace(/C/g, novo)] and [s.replace(/C+/g, novo)] for a character
    class [C]: the string is scanned from the left; with [mais] a match
    extends over the whole run of class members, without it every member
    is a match of its own.  [dentro] tells that the previous code unit
    belonged to a match. *)
Fixpoint replace_classe (mais : bool) (cls : ascii -> bool) (novo : texto)
         (dentro : bool) (s : texto) : texto :=
  match s with
  | [] => []
  | c :: r =>
      if cls c then
        if mais && dentro
        then replace_classe mais cls novo true r
        else novo ++ replace_classe mais cls novo true r
      else c :: replace_classe mais cls novo false r
  end.

(** [partes.join(sep)] *)
Fixpoint join (sep : texto) (partes : list texto) : texto :=
  match partes with
  | [] => []
  | [p] => p
  | p :: ps => p ++ sep ++ join sep ps
  end.

Fixpoint prefixo (p s : texto) : bool :=
  match p, s with
  | [], _ => true
  | _ :: _, [] => false
  | a :: p', b :: s' => Ascii.eqb a b && prefixo p' s'
  end.

(** [s.split(sep)] for a non-empty separator: the occurrences of [sep] are
    found from the left and do not overlap.  [saltar] counts the code
    units of a separator already matched that remain to be skipped.  The
    head of the result is the piece under construction. *)
Fixpoint split_de (sep : texto) (saltar : nat) (s : texto) : list texto :=
  match s with
  | [] => [[]]
  | c :: r =>
      match saltar with
      | S k => split_de sep k r
      | O =>
          if prefixo sep s
          then [] :: split_de sep (length sep - 1) r
          else match split_de sep 0 r with
               | p :: ps => (c :: p) :: ps
               | [] => [[c]]
               end
      end
  end.

Definition split (sep : texto) (s : texto) : list texto := split_de sep 0 s.

(** Truthiness of a string: the empty string is falsy. *)
Definition verdadeiro (s : texto) : bool :=
  match s with [] => false | _ :: _ => true end.

End JS.

(** ** Validation and sanitization utilities of the server *)

(** [sanitizar(str)]: [str.trim().substring(0, 200)] *)
Definition sanitizar (str : texto) : texto := JS.substring0 200 (JS.trim str).

(** Server side: [str.replace(/\D+/g, '')] *)
Definition normalizarNumero (str : texto) : texto :=
  JS.replace_classe true JS.nao_digito [] false str.

(** Browser side: [str.replace(/\D/g, '')] *)
Definition normalizarTelefone (str : texto) : texto :=
  JS.replace_classe false JS.nao_digito [] false str.

(** [validarTelefone(numero)] *)
Definition validarTelefone (numero : texto) : bool :=
  let normalizado := normalizarNumero numero in
  (10 <=? length normalizado) && (length normalizado <=? 11).

(** ** The store: SQLite with the schema of [database.js] *)

Module Sqlite.

(** [CREATE TABLE Contato (ID INTEGER PRIMARY KEY AUTOINCREMENT,
    NOME VARCHAR(100) NOT NULL, IDADE INTEGER)] *)
Record Contato := mkContato {
  c_ID : Z;
  c_NOME : texto;
  c_IDADE : option Z
}.

(** [CREATE TABLE Telefone (ID INTEGER PRIMARY KEY AUTOINCREMENT,
    IDCONTATO INTEGER NOT NULL, NUMERO VARCHAR(16) NOT NULL,
    FOREIGN KEY (IDCONTATO) REFERENCES Contato(ID) ON DELETE CASCADE)].
    SQLite does not enforce the length of a VARCHAR. *)
Record Telefone := mkTelefone {
  t_ID : Z;
  t_IDCONTATO : Z;
  t_NUMERO : texto
}.

(** The two tables in rowid order and the two rows of [sqlite_sequence]. *)
Record Banco := mkBanco {
  contatos : list Contato;
  telefones : list Telefone;
  seq_contato : Z;
  seq_telefone : Z
}.

Definition vazio : Banco :=
  {| contatos := []; telefones := []; seq_contato := 0; seq_telefone := 0 |}.

Definition existe_contato (id : Z) (b : Banco) : bool :=
  existsb (fun c => c_ID c =? id)%Z (contatos b).

Definition telefones_de (b : Banco) (id : Z) : list Telefone :=
  filter (fun t => t_IDCONTATO t =? id)%Z (telefones b).

(** AUTOINCREMENT: one more than the largest rowid the table ever held. *)
Definition proximo_id (seq : Z) (ids : list Z) : Z :=
  (fold_right Z.max seq ids + 1)%Z.

(** [INSERT INTO Contato (NOME, IDADE) VALUES (?, ?)], with [this.lastID]. *)
Definition insert_contato (nome : texto) (idade : option Z) (b : Banco)
  : Banco * Z :=
  let id := proximo_id (seq_contato b) (map c_ID (contatos b)) in
  ({| contatos := contatos b ++ [mkContato id nome idade];
      telefones := telefones b;
      seq_contato := id;
      seq_telefone := seq_telefone b |}, id).

(** [INSERT INTO Telefone (IDCONTATO, NUMERO) VALUES (?, ?)]: the statement
    fails with a constraint error when no contact has the given id. *)
Definition insert_telefone (idcontato : Z) (numero : texto) (b : Banco)
  : option Banco :=
  if existe_contato idcontato b then
    let id := proximo_id (seq_telefone b) (map t_ID (telefones b)) in
    Some {| contatos := contatos b;
            telefones := telefones b ++ [mkTelefone id idcontato numero];
            seq_contato := seq_contato b;
            seq_telefone := id |}
  else None.

(** [UPDATE Contato SET NOME = ?, IDADE = ? WHERE ID = ?], with
    [this.changes]. *)
Definition update_contato (nome : texto) (idade : option Z) (id : Z)
           (b : Banco) : Banco * nat :=
  ({| contatos :=
        map (fun c => if (c_ID c =? id)%Z then mkContato (c_ID c) nome idade
                      else c) (contatos b);
      telefones := telefones b;
      seq_contato := seq_contato b;
      seq_telefone := seq_telefone b |},
   length (filter (fun c => c_ID c =? id)%Z (contatos b))).

(** [DELETE FROM Telefone WHERE IDCONTATO = ?] *)
Definition delete_telefones (id : Z) (b : Banco) : Banco :=
  {| contatos := contatos b;
     telefones := filter (fun t => negb (t_IDCONTATO t =? id)%Z) (telefones b);
     seq_contato := seq_contato b;
     seq_telefone := seq_telefone b |}.

(** [DELETE FROM Contato WHERE ID = ?]: every deleted contact row takes
    the phone rows that reference it with it (ON DELETE CASCADE). *)
Definition delete_contato (id : Z) (b : Banco) : Banco :=
  if existe_contato id b then
    {| contatos := filter (fun c => negb (c_ID c =? id)%Z) (contatos b);
       telefones :=
         filter (fun t => negb (t_IDCONTATO t =? id)%Z) (telefones b);
       seq_contato := seq_contato b;
       seq_telefone := seq_telefone b |}
  else b.

(** *** Scalar SQL functions; [None] is NULL *)

(** [REPLACE(X, 'c', '')] for a one-character pattern. *)
Definition REPLACE (x : option texto) (c : ascii) : option texto :=
  option_map (filter (fun d => negb (Ascii.eqb d c))) x.

(** ASCII case folding of LIKE: only [A-Z] and [a-z] are identified. *)
Definition minuscula (c : ascii) : ascii :=
  let n := JS.codigo c in
  if (65 <=? n) && (n <=? 90) then ascii_of_nat (n + 32) else c.

Definition igual_sem_caixa (a b : ascii) : bool :=
  Ascii.eqb (minuscula a) (minuscula b).

(** [x LIKE padrao] on non-NULL operands: [%] matches any sequence, [_]
    any one character, every other character itself up to ASCII case.  No
    escape character is in force. *)
Fixpoint like (padrao : texto) (x : texto) {struct padrao} : bool :=
  match padrao with
  | [] => match x with [] => true | _ :: _ => false end
  | p :: padrao' =>
      if Ascii.eqb p "%" then
        (fix qualquer (y : texto) : bool :=
           like padrao' y ||
           match y with [] => false | _ :: y' => qualquer y' end) x
      else
        match x with
        | [] => false
        | d :: x' =>
            (Ascii.eqb p "_" || igual_sem_caixa p d) && like padrao' x'
        end
  end.

Definition LIKE (x : option texto) (padrao : texto) : option bool :=
  option_map (like padrao) x.

Definition OR (a b : option bool) : option bool :=
  match a, b with
  | Some true, _ | _, Some true => Some true
  | Some false, Some false => Some false
  | _, _ => None
  end.

(** [x IN (v1, ..., vn)] with text operands under the BINARY collation. *)
Definition IN (x : option texto) (vs : list texto) : option bool :=
  option_map (fun s => existsb (fun v => if list_eq_dec ascii_dec s v
                                         then true else false) vs) x.

(** A WHERE clause keeps the rows on which it is true. *)
Definition eh_verdade (v : option bool) : bool :=
  match v with Some true => true | _ => false end.

(** [GROUP_CONCAT(X, sep)]: the non-NULL values joined by [sep], NULL when
    there is none. *)
Definition GROUP_CONCAT (sep : texto) (xs : list (option texto))
  : option texto :=
  match flat_map (fun x => match x with Some s => [s] | None => [] end) xs with
  | [] => None
  | vs => Some (JS.join sep vs)
  end.

(** *** The SELECT statements of the handlers *)

(** The columns [c.ID, c.NOME, c.IDADE, GROUP_CONCAT(t.NUMERO, '||')]. *)
Record Linha := mkLinha {
  l_ID : Z;
  l_NOME : texto;
  l_IDADE : option Z;
  l_TELEFONES : option texto
}.

(** The rows of [Contato c LEFT JOIN Telefone t ON c.ID = t.IDCONTATO] that
    carry the contact [c]: one per phone, or one with NULL phone columns. *)
Definition LEFT_JOIN (b : Banco) (c : Contato) : list (option Telefone) :=
  match telefones_de b (c_ID c) with
  | [] => [None]
  | ts => map Some ts
  end.

Definition INNER_JOIN (b : Banco) (c : Contato) : list (option Telefone) :=
  map Some (telefones_de b (c_ID c)).

Definition NUMERO (t : option Telefone) : option texto :=
  option_map t_NUMERO t.

(** [SELECT ... FROM Contato c <join> Telefone t ON ... WHERE <onde>
    GROUP BY c.ID]: the WHERE clause filters the joined rows, then the rows
    left are grouped; the grouping key is the primary key of [Contato], so
    a group is the surviving joined rows of one contact. *)
Definition SELECT (juncao : Banco -> Contato -> list (option Telefone))
           (onde : Contato -> option Telefone -> option bool) (b : Banco)
  : list Linha :=
  flat_map
    (fun c =>
       match filter (fun t => eh_verdade (onde c t)) (juncao b c) with
       | [] => []
       | ts => [mkLinha (c_ID c) (c_NOME c) (c_IDADE c)
                        (GROUP_CONCAT (txt "||") (map NUMERO ts))]
       end)
    (contatos b).

(** BINARY collation: comparison of the code units. *)
Fixpoint texto_leb (a b : texto) : bool :=
  match a, b with
  | [], _ => true
  | _ :: _, [] => false
  | x :: a', y :: b' =>
      if JS.codigo x <? JS.codigo y then true
      else if JS.codigo y <? JS.codigo x then false
      else texto_leb a' b'
  end.

Fixpoint inserir_ordenado (l : Linha) (ls : list Linha) : list Linha :=
  match ls with
  | [] => [l]
  | m :: ms =>
      if texto_leb (l_NOME l) (l_NOME m) then l :: m :: ms
      else m :: inserir_ordenado l ms
  end.

(** [ORDER BY c.NOME] *)
Definition ORDER_BY_NOME (ls : list Linha) : list Linha :=
  fold_right inserir_ordenado [] ls.

End Sqlite.

(** ** The handlers of [server.js] *)

Module Servidor.
Import Sqlite.

(** The server state: the store and [logs/exclusoes.txt], the latter as
    the sequence of the lines appended to it. *)
Record Estado := mkEstado {
  banco : Banco;
  log : list texto
}.

Definition inicial : Estado := {| banco := vazio; log := [] |}.

(** The body [{ nome, idade, telefones }] of POST and PUT. *)
Record Pedido := mkPedido {
  nome : texto;
  idade : option Z;
  telefones_pedido : list texto
}.

(** The [erro] messages, by the place that produces them. *)
Inductive Erro :=
| NomeObrigatorio
| NomeLongo
| IdadeInvalida
| TelefoneObrigatorio
| NenhumTelefoneValido
| ContatoNaoEncontrado
| ErroDeBanco.

(** [{ ID, NOME, IDADE, TELEFONES }] *)
Record ContatoJson := mkContatoJson {
  ID : Z;
  NOME : texto;
  IDADE : option Z;
  TELEFONES : list texto
}.

Inductive Corpo :=
| CLista (cs : list ContatoJson)
| CContato (c : ContatoJson)
| CId (id : Z)
| CMensagem
| CDuplicatas (cs : list ContatoJson)
| CErro (erros : list Erro).

Record Resposta := mkResposta {
  status : nat;
  corpo : Corpo
}.

(** [gravarLog(id, nome, telefones)]: the line
    [[timestamp] ID: id | NOME: nome | TELEFONES: a, b, c]. *)
Definition linha_log (timestamp : texto) (id : Z) (nome : texto)
           (telefones : list texto) : texto :=
  txt "[" ++ timestamp ++ txt "] ID: "
      ++ txt (NilZero.string_of_int (Z.to_int id))
      ++ txt " | NOME: " ++ nome
      ++ txt " | TELEFONES: " ++ JS.join (txt ", ") telefones
      ++ [ascii_of_nat 10].

Definition gravarLog (timestamp : texto) (id : Z) (nome : texto)
           (telefones : list texto) (e : Estado) : Estado :=
  {| banco := banco e;
     log := log e ++ [linha_log timestamp id nome telefones] |}.

(** [validarContato(nome, idade)] *)
Definition validarContato (nome : texto) (idade : option Z) : list Erro :=
  (if negb (JS.verdadeiro nome) || (length (JS.trim nome) =? 0)
   then [NomeObrigatorio]
   else if 100 <? length nome then [NomeLongo] else [])
  ++
  match idade with
  | Some idadeNum =>
      if (idadeNum <? 1)%Z || (150 <? idadeNum)%Z then [IdadeInvalida] else []
  | None => []
  end.

(** [idade ? parseInt(idade) : null] *)
Definition idade_ou_null (idade : option Z) : option Z :=
  match idade with
  | Some z => if (z =? 0)%Z then None else Some z
  | None => None
  end.

(** [row.TELEFONES ? row.TELEFONES.split('||') : []] *)
Definition telefones_da_linha (tels : option texto) : list texto :=
  match tels with
  | Some s => if JS.verdadeiro s then JS.split (txt "||") s else []
  | None => []
  end.

(** [rows.map(row => ({ ID, NOME, IDADE, TELEFONES }))] *)
Definition contato_da_linha (row : Linha) : ContatoJson :=
  {| ID := l_ID row;
     NOME := l_NOME row;
     IDADE := l_IDADE row;
     TELEFONES := telefones_da_linha (l_TELEFONES row) |}.

(** The [db.run] of every phone behind [Promise.all]: every INSERT is
    issued, a failed one leaves the store as it was and rejects. *)
Fixpoint inserir_telefones (id : Z) (tels : list texto) (b : Banco)
  : Banco * bool :=
  match tels with
  | [] => (b, true)
  | telLimpo :: resto =>
      match insert_telefone id telLimpo b with
      | Some b' => inserir_telefones id resto b'
      | None => let (b', _) := inserir_telefones id resto b in (b', false)
      end
  end.

(** [GET /api/contatos] *)
Definition sql_listar (b : Banco) : list Linha :=
  ORDER_BY_NOME (SELECT LEFT_JOIN (fun _ _ => Some true) b).

Definition listar (e : Estado) : Resposta :=
  mkResposta 200 (CLista (map contato_da_linha (sql_listar (banco e)))).

(** [GET /api/contatos/:id]; [db.get] yields the first row, if any. *)
Definition sql_obter (id : Z) (b : Banco) : option Linha :=
  hd_error (SELECT LEFT_JOIN (fun c _ => Some (c_ID c =? id)%Z) b).

Definition obter (id : Z) (e : Estado) : Resposta :=
  match sql_obter id (banco e) with
  | None => mkResposta 404 (CErro [ContatoNaoEncontrado])
  | Some row => mkResposta 200 (CContato (contato_da_linha row))
  end.

(** [SQL_NUMERO_NORMALIZADO] *)
Definition SQL_NUMERO_NORMALIZADO (t : option Telefone) : option texto :=
  REPLACE (REPLACE (REPLACE (REPLACE (NUMERO t) "(") ")") "-") " ".

(** [GET /api/contatos/pesquisar?termo=] *)
Definition sql_pesquisar (termo termoNormalizado : texto) (b : Banco)
  : list Linha :=
  ORDER_BY_NOME
    (SELECT LEFT_JOIN
       (fun c t =>
          OR (LIKE (Some (c_NOME c)) (txt "%" ++ termo ++ txt "%"))
             (LIKE (SQL_NUMERO_NORMALIZADO t)
                   (txt "%" ++ termoNormalizado ++ txt "%")))
       b).

Definition pesquisar (termo : texto) (e : Estado) : Resposta :=
  if negb (JS.verdadeiro (JS.trim termo)) then mkResposta 200 (CLista [])
  else
    let termoNormalizado := normalizarNumero termo in
    mkResposta 200
      (CLista (map contato_da_linha
                   (sql_pesquisar termo termoNormalizado (banco e)))).

(** [POST /api/contatos] *)
Definition criar (p : Pedido) (e : Estado) : Estado * Resposta :=
  let errosContato := validarContato (nome p) (idade p) in
  if 0 <? length errosContato then (e, mkResposta 400 (CErro errosContato))
  else if length (telefones_pedido p) =? 0
  then (e, mkResposta 400 (CErro [TelefoneObrigatorio]))
  else
    let telefonesValidos :=
      filter (fun tel =>
                let normalizado := normalizarNumero tel in
                (10 <=? length normalizado) && (length normalizado <=? 11))
             (telefones_pedido p) in
    if length telefonesValidos =? 0
    then (e, mkResposta 400 (CErro [NenhumTelefoneValido]))
    else
      let nomeLimpo := sanitizar (nome p) in
      let idadeNum := idade_ou_null (idade p) in
      let (b1, contatoId) := insert_contato nomeLimpo idadeNum (banco e) in
      let (b2, ok) :=
        inserir_telefones contatoId (map sanitizar telefonesValidos) b1 in
      ({| banco := b2; log := log e |},
       if ok then mkResposta 201 (CId contatoId)
       else mkResposta 500 (CErro [ErroDeBanco])).

(** [PUT /api/contatos/:id] *)
Definition atualizar (id : Z) (p : Pedido) (e : Estado) : Estado * Resposta :=
  let errosContato := validarContato (nome p) (idade p) in
  if 0 <? length errosContato then (e, mkResposta 400 (CErro errosContato))
  else if length (telefones_pedido p) =? 0
  then (e, mkResposta 400 (CErro [TelefoneObrigatorio]))
  else
    let telefonesValidos := filter validarTelefone (telefones_pedido p) in
    if length telefonesValidos =? 0
    then (e, mkResposta 400 (CErro [NenhumTelefoneValido]))
    else
      let nomeLimpo := sanitizar (nome p) in
      let idadeNum := idade_ou_null (idade p) in
      let (b1, changes) := update_contato nomeLimpo idadeNum id (banco e) in
      if changes =? 0
      then ({| banco := b1; log := log e |},
            mkResposta 404 (CErro [ContatoNaoEncontrado]))
      else
        let b2 := delete_telefones id b1 in
        let (b3, ok) :=
          inserir_telefones id (map sanitizar telefonesValidos) b2 in
        ({| banco := b3; log := log e |},
         if ok then mkResposta 200 CMensagem
         else mkResposta 500 (CErro [ErroDeBanco])).

(** The side effects of [DELETE /api/contatos/:id], in the order the
    handler issues them. *)
Inductive Efeito :=
| EGravarLog (timestamp : texto) (id : Z) (nome : texto) (tels : list texto)
| EDeleteContato (id : Z).

Definition aplicar (e : Estado) (f : Efeito) : Estado :=
  match f with
  | EGravarLog ts id nome tels => gravarLog ts id nome tels e
  | EDeleteContato id =>
      {| banco := delete_contato id (banco e); log := log e |}
  end.

(** [sqlBuscar]: [c.NOME] and the concatenated phones of the contact. *)
Definition sql_buscar (id : Z) (b : Banco) : option Linha :=
  hd_error (SELECT LEFT_JOIN (fun c _ => Some (c_ID c =? id)%Z) b).

Definition excluir_efeitos (agora : texto) (id : Z) (e : Estado)
  : list Efeito * Resposta :=
  match sql_buscar id (banco e) with
  | None => ([], mkResposta 404 (CErro [ContatoNaoEncontrado]))
  | Some row =>
      let telefones := telefones_da_linha (l_TELEFONES row) in
      ([EGravarLog agora id (l_NOME row) telefones; EDeleteContato id],
       mkResposta 200 CMensagem)
  end.

(** [DELETE /api/contatos/:id]; [agora] is the reading of the clock. *)
Definition excluir (agora : texto) (id : Z) (e : Estado) : Estado * Resposta :=
  let (efeitos, r) := excluir_efeitos agora id e in
  (fold_left aplicar efeitos e, r).

(** [POST /api/telefones/verificar] *)
Definition sql_verificar (numerosNormalizados : list texto) (b : Banco)
  : list Linha :=
  SELECT INNER_JOIN
    (fun _ t => IN (SQL_NUMERO_NORMALIZADO t) numerosNormalizados) b.

Definition verificar (tels : list texto) (e : Estado) : Resposta :=
  if length tels =? 0 then mkResposta 200 (CDuplicatas [])
  else
    let numerosNormalizados :=
      filter (fun n => 0 <? length n) (map normalizarNumero tels) in
    if length numerosNormalizados =? 0 then mkResposta 200 (CDuplicatas [])
    else
      mkResposta 200
        (CDuplicatas (map contato_da_linha
                          (sql_verificar numerosNormalizados (banco e)))).

(** The contacts a response carries. *)
Definition contatos_da_resposta (r : Resposta) : list ContatoJson :=
  match corpo r with
  | CLista cs | CDuplicatas cs => cs
  | CContato c => [c]
  | _ => []
  end.

(** The requests that change the state. *)
Inductive Operacao :=
| OpCriar (p : Pedido)
| OpAtualizar (id : Z) (p : Pedido)
| OpExcluir (agora : texto) (id : Z).

Definition executar (o : Operacao) (e : Estado) : Estado * Resposta :=
  match o with
  | OpCriar p => criar p e
  | OpAtualizar id p => atualizar id p e
  | OpExcluir agora id => excluir agora id e
  end.

(** The states the server reaches from the empty store. *)
Inductive alcancavel : Estado -> Prop :=
| alc_inicial : alcancavel inicial
| alc_passo : forall e o,
    alcancavel e -> alcancavel (fst (executar o e)).

End Servidor.

(** ** The routes, in the order [server.js] registers them *)

Module Rotas.

Inductive Verbo := GET | POST | PUT | DELETE.

Definition verbo_eqb (a b : Verbo) : bool :=
  match a, b with
  | GET, GET | POST, POST | PUT, PUT | DELETE, DELETE => true
  | _, _ => false
  end.

(** A segment of a route path: a literal or a parameter such as [:id]. *)
Inductive Segmento := Lit (s : string) | Param.

Inductive Manipulador :=
| HListar | HObter | HPesquisar | HCriar | HAtualizar | HExcluir
| HVerificar | HExportDb | HExport.

Definition rotas : list (Verbo * list Segmento * Manipulador) :=
  [ (GET, [Lit "api"; Lit "contatos"], HListar);
    (GET, [Lit "api"; Lit "contatos"; Param], HObter);
    (GET, [Lit "api"; Lit "contatos"; Lit "pesquisar"], HPesquisar);
    (POST, [Lit "api"; Lit "contatos"], HCriar);
    (PUT, [Lit "api"; Lit "contatos"; Param], HAtualizar);
    (DELETE, [Lit "api"; Lit "contatos"; Param], HExcluir);
    (POST, [Lit "api"; Lit "telefones"; Lit "verificar"], HVerificar);
    (GET, [Lit "export-db"], HExportDb);
    (GET, [Lit "export"], HExport) ]%string.

Fixpoint casa (rota : list Segmento) (caminho : list string) : bool :=
  match rota, caminho with
  | [], [] => true
  | Lit s :: rota', x :: caminho' => String.eqb s x && casa rota' caminho'
  | Param :: rota', x :: caminho' =>
      negb (String.eqb x EmptyString) && casa rota' caminho'
  | _, _ => false
  end.

(** The first registered route that matches handles the request; every
    handler answers without passing the request on. *)
Definition despachar (v : Verbo) (caminho : list string) : option Manipulador :=
  match find (fun r => verbo_eqb (fst (fst r)) v && casa (snd (fst r)) caminho)
             rotas with
  | Some r => Some (snd r)
  | None => None
  end.

End Rotas.

(** ** Properties of the store and of the responses *)

Module Propriedades.
Import Sqlite Servidor.

(** Every phone row references a contact row. *)
Definition integridade (b : Banco) : Prop :=
  forall t, In t (telefones b) ->
            exists c, In c (contatos b) /\ c_ID c = t_IDCONTATO t.

(** What the store guarantees of itself: primary keys are unique and not
    above the AUTOINCREMENT counters, and the foreign key holds. *)
Record bem_formado (b : Banco) : Prop := {
  bf_contatos : NoDup (map c_ID (contatos b));
  bf_telefones : NoDup (map t_ID (telefones b));
  bf_seq_contato : forall c, In c (contatos b) -> (c_ID c <= seq_contato b)%Z;
  bf_seq_telefone : forall t, In t (telefones b) -> (t_ID t <= seq_telefone b)%Z;
  bf_integridade : integridade b
}.

(** The SQL statements the handlers issue. *)
Inductive Comando :=
| InsertContato (nome : texto) (idade : option Z)
| InsertTelefone (idcontato : Z) (numero : texto)
| UpdateContato (nome : texto) (idade : option Z) (id : Z)
| DeleteTelefones (id : Z)
| DeleteContato (id : Z).

(** A failed statement leaves the store as it was. *)
Definition executar_comando (k : Comando) (b : Banco) : Banco :=
  match k with
  | InsertContato nome idade => fst (insert_contato nome idade b)
  | InsertTelefone idc numero =>
      match insert_telefone idc numero b with Some b' => b' | None => b end
  | UpdateContato nome idade id => fst (update_contato nome idade id b)
  | DeleteTelefones id => delete_telefones id b
  | DeleteContato id => delete_contato id b
  end.




Definition ordenada_por_nome (cs : list ContatoJson) : Prop :=
  Sorted (fun a b => texto_leb (NOME a) (NOME b) = true) cs.

(** The phone numbers stored for a contact, in rowid order. *)
Definition numeros_de (b : Banco) (id : Z) : list texto :=
  map t_NUMERO (telefones_de b id).

Definition sem_barra (s : texto) : Prop := ~ In "|"%char s.

(** The normalization [SQL_NUMERO_NORMALIZADO] applies to a stored number. *)
Definition numero_sql (numero : texto) : texto :=
  filter (fun d => negb (Ascii.eqb d " "))
    (filter (fun d => negb (Ascii.eqb d "-"))
       (filter (fun d => negb (Ascii.eqb d ")"))
          (filter (fun d => negb (Ascii.eqb d "(")) numero))).

(** The phone is written with digits, parentheses, hyphens and spaces. *)
Definition formato_usual (numero : texto) : Prop :=
  Forall (fun c => JS.eh_digito c = true \/ c = "("%char \/ c = ")"%char
                   \/ c = "-"%char \/ c = " "%char) numero.

Definition pedido_valido (p : Pedido) : Prop :=
  validarContato (nome p) (idade p) = [] /\
  filter validarTelefone (telefones_pedido p) <> [].

(** The joined rows of a contact that pass the WHERE clause, whether the
    contact is in the result, and its row there. *)
Definition linhas_aceitas (juncao : Banco -> Contato -> list (option Telefone))
           (onde : Contato -> option Telefone -> option bool)
           (b : Banco) (c : Contato) : list (option Telefone) :=
  filter (fun t => eh_verdade (onde c t)) (juncao b c).

Definition selecionado (juncao : Banco -> Contato -> list (option Telefone))
           (onde : Contato -> option Telefone -> option bool)
           (b : Banco) (c : Contato) : bool :=
  match linhas_aceitas juncao onde b c with [] => false | _ :: _ => true end.

Definition linha_de (juncao : Banco -> Contato -> list (option Telefone))
           (onde : Contato -> option Telefone -> option bool)
           (b : Banco) (c : Contato) : Linha :=
  mkLinha (c_ID c) (c_NOME c) (c_IDADE c)
          (GROUP_CONCAT (txt "||") (map NUMERO (linhas_aceitas juncao onde b c))).

Definition por_nome (l m : Linha) : Prop :=
  texto_leb (l_NOME l) (l_NOME m) = true.

(** The pattern [%termo%] of the search. *)
Definition padrao (termo : texto) : texto := txt "%" ++ termo ++ txt "%".

(** The two tests of the WHERE clause of the search. *)
Definition nome_casa (termo : texto) (c : Contato) : bool :=
  like (padrao termo) (c_NOME c).

Definition telefone_casa (termo : texto) (t : Telefone) : bool :=
  like (padrao (normalizarNumero termo)) (numero_sql (t_NUMERO t)).

Definition onde_pesquisa (termo : texto)
  : Contato -> option Telefone -> option bool :=
  fun c t =>
    OR (LIKE (Some (c_NOME c)) (txt "%" ++ termo ++ txt "%"))
       (LIKE (SQL_NUMERO_NORMALIZADO t)
             (txt "%" ++ normalizarNumero termo ++ txt "%")).

(** The test of the WHERE clause of the duplicate check. *)
Definition onde_verificar (numerosNormalizados : list texto)
  : Contato -> option Telefone -> option bool :=
  fun _ t => IN (SQL_NUMERO_NORMALIZADO t) numerosNormalizados.

(** The contact of a response is a contact row of the store. *)
Definition vem_do_banco (b : Banco) (j : ContatoJson) : Prop :=
  exists c, In c (contatos b) /\ ID j = c_ID c /\ NOME j = c_NOME c /\
            IDADE j = c_IDADE c.

(** The test of the duplicate check on one phone row. *)
Definition telefone_duplicado (numerosNormalizados : list texto)
           (t : Telefone) : bool :=
  existsb (fun v => if list_eq_dec ascii_dec (numero_sql (t_NUMERO t)) v
                    then true else false) numerosNormalizados.

(** The normalized candidates the duplicate check binds to its query. *)
Definition numeros_candidatos (candidatos : list texto) : list texto :=
  filter (fun n => 0 <? length n) (map normalizarNumero candidatos).

End Propriedades.

(** ** Sample requests and states *)

Module Exemplos.
Import Sqlite Servidor.

Definition pedido_ana : Pedido :=
  mkPedido (txt "Ana") (Some 30%Z) [txt "(11) 98765-4321"].

Definition estado_ana : Estado := fst (criar pedido_ana inicial).

(** A phone of three digits alone. *)
Definition pedido_curto : Pedido :=
  mkPedido (txt "Ana") (Some 30%Z) [txt "123"].


(** A phone written with dots. *)
Definition pedido_pontos : Pedido :=
  mkPedido (txt "Bia") None [txt "11.98765.4321"].

Definition estado_pontos : Estado := fst (criar pedido_pontos inicial).

(** A phone that contains the separator of GROUP_CONCAT. *)
Definition pedido_barras : Pedido :=
  mkPedido (txt "Caio") None [txt "1198765||4321"].

Definition estado_barras : Estado := fst (criar pedido_barras inicial).


(** Two phones of which one contains [4321]. *)
Definition pedido_dois : Pedido :=
  mkPedido (txt "Davi") None [txt "(11) 98765-4321"; txt "(11) 3456-7890"].

Definition estado_dois : Estado := fst (criar pedido_dois inicial).

End Exemplos.

(** ** The browser controller: the phone field of [salvarContato] and the
    merge of the duplicate modal *)

Module Cliente.

(** The class [[,\n]] of [split(/[,\n]/)]. *)
Definition eh_separador (c : ascii) : bool :=
  Ascii.eqb c "," || Ascii.eqb c (ascii_of_nat 10).

(** [s.split(/C/)] for a character class [C]: a cut at every member. *)
Fixpoint split_classe (cls : ascii -> bool) (s : texto) : list texto :=
  match s with
  | [] => [[]]
  | c :: r =>
      if cls c then [] :: split_classe cls r
      else match split_classe cls r with
           | p :: ps => (c :: p) :: ps
           | [] => [[c]]
           end
  end.

(** [telefones.split(/[,\n]/).map(t => t.trim()).filter(t => t)], on the
    trimmed value of the field. *)
Definition listaTelefones (campo : texto) : list texto :=
  filter JS.verdadeiro
         (map JS.trim (split_classe eh_separador (JS.trim campo))).

(** A [Map] with string keys: its entries in insertion order. *)
Definition Mapa := list (texto * texto).

Definition Map_has (m : Mapa) (chave : texto) : bool :=
  existsb (fun kv => if list_eq_dec ascii_dec (fst kv) chave
                     then true else false) m.

(** [m.set(chave, valor)] for a key the map does not have. *)
Definition Map_set (m : Mapa) (chave valor : texto) : Mapa :=
  m ++ [(chave, valor)].

(** The loop that fills [uniqueMap]: a phone without a digit is skipped,
    and so is one whose digits are a key already. *)
Fixpoint preencher (uniqueMap : Mapa) (lista : list texto) : Mapa :=
  match lista with
  | [] => uniqueMap
  | t :: resto =>
      let norm := normalizarTelefone t in
      if negb (JS.verdadeiro norm) then preencher uniqueMap resto
      else if negb (Map_has uniqueMap norm)
           then preencher (Map_set uniqueMap norm t) resto
           else preencher uniqueMap resto
  end.

(** [Array.from(uniqueMap.values())] *)
Definition listaTelefonesUnicos (campo : texto) : list texto :=
  map snd (preencher [] (listaTelefones campo)).

(** The test of the validation loop: fewer than 10 or more than 11
    digits. *)
Definition invalido (tel : texto) : bool :=
  let normalizado := normalizarTelefone tel in
  (length normalizado <? 10) || (11 <? length normalizado).

(** What [salvarContato] decides before it talks to the server. *)
Inductive Decisao :=
| CamposObrigatorios (semNome semTelefones : bool)
| TelefoneInvalido (tel : texto)
| Enviar (nome : texto) (telefones : list texto).

Definition salvarContato_telefones (campoNome campoTelefones : texto)
  : Decisao :=
  let nome := JS.trim campoNome in
  let telefones := JS.trim campoTelefones in
  if negb (JS.verdadeiro nome) || negb (JS.verdadeiro telefones)
  then CamposObrigatorios (negb (JS.verdadeiro nome))
                          (negb (JS.verdadeiro telefones))
  else
    match find invalido (listaTelefonesUnicos campoTelefones) with
    | Some tel => TelefoneInvalido tel
    | None => Enviar nome (listaTelefonesUnicos campoTelefones)
    end.

(** [[...new Set(xs)]]: the first occurrence of every string, in order. *)
Fixpoint Set_de (vistos : list texto) (xs : list texto) : list texto :=
  match xs with
  | [] => []
  | x :: r =>
      if existsb (fun v => if list_eq_dec ascii_dec v x then true else false)
                 vistos
      then Set_de vistos r
      else x :: Set_de (x :: vistos) r
  end.

(** The merge of the duplicate modal:
    [value.split('\n').filter(t => t.trim())] and
    [[...new Set([...telefonesExistentes, ...novosNumeros])]]. *)
Definition telefonesExistentes (campo : texto) : list texto :=
  filter (fun t => JS.verdadeiro (JS.trim t))
         (JS.split [ascii_of_nat 10] campo).

Definition todosNumeros (campo : texto) (novosNumeros : list texto)
  : list texto :=
  Set_de [] (telefonesExistentes campo ++ novosNumeros).

End Cliente.

(** ** The export of the contacts: [GET /export?format=csv|txt|json] *)

Module Exportacao.
Import Sqlite Servidor.

Definition aspas : ascii := ascii_of_nat 34.

(** [String.prototype.toLowerCase] on the 8-bit range: the ASCII capitals
    and the capitals of Latin-1, U+00C0 to U+00DE without U+00D7. *)
Definition toLowerCase (s : texto) : texto :=
  map (fun c =>
         let n := JS.codigo c in
         if ((65 <=? n) && (n <=? 90))
            || ((192 <=? n) && (n <=? 222) && negb (n =? 215))
         then ascii_of_nat (n + 32) else c) s.

(** [String(n)] for an integer. *)
Definition texto_de_Z (z : Z) : texto :=
  txt (NilZero.string_of_int (Z.to_int z)).

(** [c.IDADE ?? ''] inside a template or a joined array. *)
Definition idade_ou_vazio (idade : option Z) : texto :=
  match idade with Some z => texto_de_Z z | None => [] end.

(** [escape(val)]: the value between quotes, every quote doubled. *)
Definition escape (val : texto) : texto :=
  [aspas]
    ++ JS.replace_classe false (fun c => Ascii.eqb c aspas) [aspas; aspas]
                         false val
    ++ [aspas].

(** The lines a contact adds to [linhasCsv]: one per phone, or one with an
    empty last field. *)
Definition linhas_do_contato (c : ContatoJson) : list texto :=
  if length (TELEFONES c) =? 0
  then [JS.join (txt ",")
                [texto_de_Z (ID c); escape (NOME c);
                 idade_ou_vazio (IDADE c); []]]
  else map (fun tel =>
              JS.join (txt ",")
                      [texto_de_Z (ID c); escape (NOME c);
                       idade_ou_vazio (IDADE c); escape tel])
           (TELEFONES c).

Definition linhasCsv (contatos : list ContatoJson) : list texto :=
  JS.join (txt ",") [txt "ID"; txt "NOME"; txt "IDADE"; txt "TELEFONE"]
  :: flat_map linhas_do_contato contatos.

Definition linha_txt (c : ContatoJson) : texto :=
  txt "ID: " ++ texto_de_Z (ID c) ++ txt " | NOME: " ++ NOME c
      ++ txt " | IDADE: " ++ idade_ou_vazio (IDADE c)
      ++ txt " | TELEFONES: " ++ JS.join (txt "; ") (TELEFONES c).

(** The body of the download; the JSON text is [JSON.stringify] of the
    contacts, kept here as the value it prints. *)
Inductive Arquivo :=
| ArquivoJson (contatos : list ContatoJson)
| ArquivoTxt (corpo : texto)
| ArquivoCsv (corpo : texto).

Definition exportar (formato : option texto) (e : Estado) : Arquivo :=
  let format :=
    toLowerCase (match formato with
                 | Some f => if JS.verdadeiro f then f else txt "csv"
                 | None => txt "csv"
                 end) in
  let contatos := map contato_da_linha (sql_listar (banco e)) in
  if list_eq_dec ascii_dec format (txt "json") then ArquivoJson contatos
  else if list_eq_dec ascii_dec format (txt "txt")
  then ArquivoTxt (JS.join [ascii_of_nat 10] (map linha_txt contatos))
  else ArquivoCsv (JS.join [ascii_of_nat 10] (linhasCsv contatos)).

End Exportacao.

(** ** Further properties of the stored data *)

Module Dados.
Import Sqlite Servidor Propriedades.

(** The string does not begin, or does not end, with white space. *)
Definition inicio_limpo (s : texto) : Prop :=
  match s with [] => True | c :: _ => JS.eh_branco c = false end.

Definition fim_limpo (s : texto) : Prop := inicio_limpo (rev s).



(** Every contact owns a phone row. *)
Definition com_telefone (b : Banco) : Prop :=
  forall c, In c (contatos b) -> telefones_de b (c_ID c) <> [].

Definition executar_todas (os : list Operacao) (e : Estado) : Estado :=
  fold_left (fun e o => fst (executar o e)) os e.

(** The contact a request writes to, if it names one. *)
Definition alvo (o : Operacao) : option Z :=
  match o with
  | OpCriar _ => None
  | OpAtualizar id _ => Some id
  | OpExcluir _ id => Some id
  end.

End Dados.
(** * Theorems *)

Import Sqlite Servidor Propriedades.

(** ** Phone normalization *)

Section Normalizacao.

Lemma replace_classe_vazio (mais : bool) (cls : ascii -> bool) (s : texto) :
  forall dentro,
    JS.replace_classe mais cls [] dentro s = filter (fun c => negb (cls c)) s.
Proof.
  induction s as [|c r IH]; intros dentro; simpl; [reflexivity|].
  destruct (cls c); simpl.
  - destruct (mais && dentro); simpl; apply IH.
  - f_equal; apply IH.
Qed.

Lemma filter_nao_nao_digito (s : texto) :
  filter (fun c => negb (JS.nao_digito c)) s = filter JS.eh_digito s.
Proof.
  apply filter_ext; intros c; unfold JS.nao_digito; apply negb_involutive.
Qed.

Lemma normalizarNumero_digitos (s : texto) :
  normalizarNumero s = filter JS.eh_digito s.
Proof.
  unfold normalizarNumero.
  rewrite replace_classe_vazio; apply filter_nao_nao_digito.
Qed.

Lemma normalizarTelefone_digitos (s : texto) :
  normalizarTelefone s = filter JS.eh_digito s.
Proof.
  unfold normalizarTelefone.
  rewrite replace_classe_vazio; apply filter_nao_nao_digito.
Qed.

Lemma filter_idem {A} (f : A -> bool) (l : list A) :
  filter f (filter f l) = filter f l.
Proof.
  induction l as [|x l IH]; simpl; [reflexivity|].
  destruct (f x) eqn:E; simpl; rewrite ?E, IH; reflexivity.
Qed.

Lemma normalizarNumero_app (s r : texto) :
  normalizarNumero (s ++ r) = normalizarNumero s ++ normalizarNumero r.
Proof. rewrite !normalizarNumero_digitos; apply filter_app. Qed.


End Normalizacao.

(** C8.  Both normalization functions, [normalizarNumero] of the server and
    [normalizarTelefone] of the browser, return the subsequence of the digits
    of their argument, every other code unit removed and the order kept, and
    normalizing a second time changes nothing. *)
Theorem C8_normalizacao_idempotente :
  forall s : texto,
    normalizarNumero s = filter JS.eh_digito s /\
    normalizarTelefone s = filter JS.eh_digito s /\
    normalizarNumero (normalizarNumero s) = normalizarNumero s /\
    normalizarTelefone (normalizarTelefone s) = normalizarTelefone s.
Proof.
  intros s.
  rewrite !normalizarTelefone_digitos, !normalizarNumero_digitos.
  rewrite filter_idem; auto.
Qed.

(** ** The store keeps itself well formed *)

Section Invariante.

Lemma existe_contato_In (id : Z) (b : Banco) :
  existe_contato id b = true <-> exists c, In c (contatos b) /\ c_ID c = id.
Proof.
  unfold existe_contato; rewrite existsb_exists.
  split; intros [c [H1 H2]]; exists c; split; auto; lia.
Qed.

Lemma existe_contato_ids (id : Z) (b : Banco) :
  existe_contato id b = true <-> In id (map c_ID (contatos b)).
Proof.
  rewrite existe_contato_In, in_map_iff.
  split; intros [c [H1 H2]]; exists c; tauto.
Qed.

Lemma fold_max_ge (seq : Z) (ids : list Z) :
  (seq <= fold_right Z.max seq ids)%Z /\
  forall i, In i ids -> (i <= fold_right Z.max seq ids)%Z.
Proof.
  induction ids as [|j ids [IH1 IH2]]; simpl.
  - split; [lia | tauto].
  - split; [lia|].
    intros i [->|H]; [lia | specialize (IH2 i H); lia].
Qed.

Lemma proximo_id_novo (seq : Z) (ids : list Z) :
  (seq < proximo_id seq ids)%Z /\
  forall i, In i ids -> (i < proximo_id seq ids)%Z.
Proof.
  unfold proximo_id; destruct (fold_max_ge seq ids) as [H1 H2].
  split; [lia|]; intros i H; specialize (H2 i H); lia.
Qed.

Lemma NoDup_app_um {A} (l : list A) (x : A) :
  NoDup l -> ~ In x l -> NoDup (l ++ [x]).
Proof.
  intros Hl Hx; induction Hl as [|y l Hy Hl IH]; simpl.
  - constructor; [tauto | constructor].
  - constructor.
    + rewrite in_app_iff; simpl; intros [H|[H|[]]]; [tauto|].
      apply Hx; left; auto.
    + apply IH; intros H; apply Hx; right; auto.
Qed.

(** Deleting rows keeps a key unique. *)
Lemma NoDup_map_filter {A B} (chave : A -> B) (fica : A -> bool) :
  forall linhas : list A,
    NoDup (map chave linhas) -> NoDup (map chave (filter fica linhas)).
Proof.
  intros linhas Hnd; induction linhas as [|x l IH]; simpl; [constructor|].
  inversion Hnd as [|? ? Hx Hl]; subst.
  destruct (fica x); simpl; [constructor|]; auto.
  intros Hin; apply Hx.
  apply in_map_iff in Hin; destruct Hin as [y [E Hy]].
  apply in_map_iff; exists y; split; auto.
  apply filter_In in Hy; tauto.
Qed.

Lemma bem_formado_vazio : bem_formado vazio.
Proof.
  constructor; simpl; try constructor; try tauto.
  intros t [].
Qed.

Lemma insert_contato_bem_formado nome idade b :
  bem_formado b -> bem_formado (fst (insert_contato nome idade b)).
Proof.
  intros [H1 H2 H3 H4 H5].
  destruct (proximo_id_novo (seq_contato b) (map c_ID (contatos b)))
    as [Hs Hi].
  constructor; simpl; auto.
  - rewrite map_app; simpl; apply NoDup_app_um; auto.
    intros H; specialize (Hi _ H); lia.
  - intros c Hc; apply in_app_iff in Hc; destruct Hc as [Hc|[<-|[]]]; simpl.
    + specialize (H3 c Hc); lia.
    + lia.
  - intros t Ht; destruct (H5 t Ht) as [c [Hc E]].
    exists c; split; auto; apply in_app_iff; auto.
Qed.

Lemma insert_telefone_bem_formado idc numero b b' :
  bem_formado b -> insert_telefone idc numero b = Some b' -> bem_formado b'.
Proof.
  intros [H1 H2 H3 H4 H5]; unfold insert_telefone.
  destruct (existe_contato idc b) eqn:E; [|discriminate].
  intros H; inversion H; subst; clear H.
  destruct (proximo_id_novo (seq_telefone b) (map t_ID (telefones b)))
    as [Hs Hi].
  constructor; simpl; auto.
  - rewrite map_app; simpl; apply NoDup_app_um; auto.
    intros H; specialize (Hi _ H); lia.
  - intros t Ht; apply in_app_iff in Ht; destruct Ht as [Ht|[<-|[]]]; simpl.
    + specialize (H4 t Ht); lia.
    + lia.
  - intros t Ht; simpl in Ht; apply in_app_iff in Ht.
    destruct Ht as [Ht|[<-|[]]]; simpl; auto.
    apply existe_contato_In; auto.
Qed.

Lemma update_contato_ids nome idade id b :
  map c_ID (contatos (fst (update_contato nome idade id b)))
  = map c_ID (contatos b).
Proof.
  simpl; rewrite map_map; apply map_ext.
  intros c; destruct (c_ID c =? id)%Z; reflexivity.
Qed.

Lemma update_contato_bem_formado nome idade id b :
  bem_formado b -> bem_formado (fst (update_contato nome idade id b)).
Proof.
  intros [H1 H2 H3 H4 H5].
  constructor; try rewrite update_contato_ids; auto.
  - simpl; intros c Hc; apply in_map_iff in Hc.
    destruct Hc as [d [E Hd]]; specialize (H3 d Hd).
    destruct (c_ID d =? id)%Z; subst; simpl; auto.
  - intros t Ht; simpl in Ht; destruct (H5 t Ht) as [c [Hc E]].
    assert (Hi : In (t_IDCONTATO t)
                    (map c_ID (contatos (fst (update_contato nome idade id b))))).
    { rewrite update_contato_ids, <- E; apply in_map; auto. }
    apply in_map_iff in Hi; destruct Hi as [d [E' Hd]]; exists d; auto.
Qed.

Lemma delete_telefones_bem_formado id b :
  bem_formado b -> bem_formado (delete_telefones id b).
Proof.
  intros [H1 H2 H3 H4 H5]; constructor; simpl; auto.
  - apply NoDup_map_filter; auto.
  - intros t Ht; apply filter_In in Ht; apply H4; tauto.
  - intros t Ht; simpl in Ht; apply filter_In in Ht; apply H5; tauto.
Qed.

Lemma delete_contato_bem_formado id b :
  bem_formado b -> bem_formado (delete_contato id b).
Proof.
  intros [H1 H2 H3 H4 H5]; unfold delete_contato.
  destruct (existe_contato id b); [|constructor; auto].
  constructor; simpl.
  - apply NoDup_map_filter; auto.
  - apply NoDup_map_filter; auto.
  - intros c Hc; apply filter_In in Hc; apply H3; tauto.
  - intros t Ht; apply filter_In in Ht; apply H4; tauto.
  - intros t Ht; simpl in Ht; apply filter_In in Ht; destruct Ht as [Ht Hn].
    destruct (H5 t Ht) as [c [Hc E]]; exists c; split; auto.
    simpl; apply filter_In; split; auto; rewrite E; auto.
Qed.

(** The foreign key survives every statement, so it survives every
    interleaving of the statements of concurrent requests. *)
Lemma comando_bem_formado (k : Comando) (b : Banco) :
  bem_formado b -> bem_formado (executar_comando k b).
Proof.
  intros H; destruct k; simpl.
  - apply insert_contato_bem_formado; auto.
  - destruct (insert_telefone idcontato numero b) eqn:E; auto.
    eapply insert_telefone_bem_formado; eauto.
  - apply update_contato_bem_formado; auto.
  - apply delete_telefones_bem_formado; auto.
  - apply delete_contato_bem_formado; auto.
Qed.

Lemma comandos_integridade (ks : list Comando) (b : Banco) :
  bem_formado b ->
  integridade (fold_left (fun b k => executar_comando k b) ks b).
Proof.
  revert b; induction ks as [|k ks IH]; simpl; intros b H.
  - apply H.
  - apply IH, comando_bem_formado, H.
Qed.

Lemma inserir_telefones_bem_formado id tels :
  forall b, bem_formado b -> bem_formado (fst (inserir_telefones id tels b)).
Proof.
  induction tels as [|tel tels IH]; simpl; intros b H; auto.
  destruct (insert_telefone id tel b) as [b'|] eqn:E.
  - apply IH; eapply insert_telefone_bem_formado; eauto.
  - specialize (IH b H); destruct (inserir_telefones id tels b); auto.
Qed.

Lemma criar_bem_formado p e :
  bem_formado (banco e) -> bem_formado (banco (fst (criar p e))).
Proof.
  intros H; unfold criar.
  destruct (0 <? length _); auto.
  destruct (length (telefones_pedido p) =? 0); auto.
  destruct (length (filter _ _) =? 0); auto.
  destruct (insert_contato _ _ _) as [b1 cid] eqn:E1.
  destruct (inserir_telefones _ _ _) as [b2 ok] eqn:E2; simpl.
  change b2 with (fst (b2, ok)); rewrite <- E2.
  apply inserir_telefones_bem_formado.
  change b1 with (fst (b1, cid)); rewrite <- E1.
  apply insert_contato_bem_formado; auto.
Qed.

Lemma atualizar_bem_formado id p e :
  bem_formado (banco e) -> bem_formado (banco (fst (atualizar id p e))).
Proof.
  intros H; unfold atualizar.
  destruct (0 <? length _); auto.
  destruct (length (telefones_pedido p) =? 0); auto.
  destruct (length (filter _ _) =? 0); auto.
  destruct (update_contato _ _ _ _) as [b1 ch] eqn:E1.
  assert (H1 : bem_formado b1).
  { change b1 with (fst (b1, ch)); rewrite <- E1.
    apply update_contato_bem_formado; auto. }
  destruct (ch =? 0); auto.
  destruct (inserir_telefones _ _ _) as [b3 ok] eqn:E3; simpl.
  change b3 with (fst (b3, ok)); rewrite <- E3.
  apply inserir_telefones_bem_formado, delete_telefones_bem_formado; auto.
Qed.

Lemma excluir_bem_formado agora id e :
  bem_formado (banco e) -> bem_formado (banco (fst (excluir agora id e))).
Proof.
  intros H; unfold excluir, excluir_efeitos.
  destruct (sql_buscar id (banco e)); simpl; auto.
  apply delete_contato_bem_formado; auto.
Qed.

Lemma executar_bem_formado o e :
  bem_formado (banco e) -> bem_formado (banco (fst (executar o e))).
Proof.
  destruct o; simpl.
  - apply criar_bem_formado.
  - apply atualizar_bem_formado.
  - apply excluir_bem_formado.
Qed.

Lemma alcancavel_bem_formado e : alcancavel e -> bem_formado (banco e).
Proof.
  induction 1 as [|e o _ IH].
  - apply bem_formado_vazio.
  - apply executar_bem_formado, IH.
Qed.

End Invariante.

(** C3.  In every state the server reaches from the empty store through
    create, update and delete requests, the owning-contact reference of every
    phone row is the ID of a contact row of the store: no request, the delete
    with its cascade included, leaves an orphan phone row. *)
Theorem C3_integridade_referencial :
  forall e : Estado,
    alcancavel e ->
    forall t, In t (telefones (banco e)) ->
              exists c, In c (contatos (banco e)) /\ c_ID c = t_IDCONTATO t.
Proof.
  intros e H; apply (bf_integridade (alcancavel_bem_formado H)).
Qed.

(** ** Creation and update: validation of the phones *)

Section Validacao.

(** The handler of POST applies the test of [validarTelefone] inline. *)
Lemma criar_eq p e :
  criar p e =
  if 0 <? length (validarContato (nome p) (idade p))
  then (e, mkResposta 400 (CErro (validarContato (nome p) (idade p))))
  else if length (telefones_pedido p) =? 0
  then (e, mkResposta 400 (CErro [TelefoneObrigatorio]))
  else if length (filter validarTelefone (telefones_pedido p)) =? 0
  then (e, mkResposta 400 (CErro [NenhumTelefoneValido]))
  else
    let (b1, contatoId) :=
      insert_contato (sanitizar (nome p)) (idade_ou_null (idade p)) (banco e) in
    let (b2, ok) :=
      inserir_telefones contatoId
        (map sanitizar (filter validarTelefone (telefones_pedido p))) b1 in
    ({| banco := b2; log := log e |},
     if ok then mkResposta 201 (CId contatoId)
     else mkResposta 500 (CErro [ErroDeBanco])).
Proof. reflexivity. Qed.

Lemma length_zero_nil {A} (l : list A) : (length l =? 0) = true <-> l = [].
Proof.
  destruct l; simpl; split; intros H; auto; discriminate.
Qed.

Lemma criar_sem_validos p e :
  filter validarTelefone (telefones_pedido p) = [] ->
  status (snd (criar p e)) = 400 /\ fst (criar p e) = e.
Proof.
  intros H; rewrite criar_eq, H; simpl.
  destruct (0 <? length _); auto.
  destruct (length (telefones_pedido p) =? 0); auto.
Qed.


Lemma insert_telefone_linhas id tel b b' :
  insert_telefone id tel b = Some b' ->
  contatos b' = contatos b /\ seq_contato b' = seq_contato b /\
  exists t, telefones b' = telefones b ++ [t] /\
            t_IDCONTATO t = id /\ t_NUMERO t = tel /\
            (seq_telefone b < t_ID t)%Z /\ seq_telefone b' = t_ID t.
Proof.
  unfold insert_telefone; destruct (existe_contato id b); [|discriminate].
  intros H; inversion H; subst; clear H; simpl.
  split; [reflexivity|]; split; [reflexivity|].
  eexists; split; [reflexivity|]; simpl.
  repeat split; apply (proj1 (proximo_id_novo _ _)).
Qed.

(** What the INSERT statements behind [Promise.all] leave in the store. *)
Lemma inserir_telefones_linhas id tels :
  forall b,
    let b' := fst (inserir_telefones id tels b) in
    contatos b' = contatos b /\ seq_contato b' = seq_contato b /\
    (seq_telefone b <= seq_telefone b')%Z /\
    exists novos,
      telefones b' = telefones b ++ novos /\
      Forall (fun t => t_IDCONTATO t = id /\ In (t_NUMERO t) tels /\
                       (seq_telefone b < t_ID t)%Z) novos /\
      (existe_contato id b = true ->
       map t_NUMERO novos = tels /\ snd (inserir_telefones id tels b) = true).
Proof.
  induction tels as [|tel tels IH]; intros b; simpl.
  - repeat split; auto; try lia.
    exists []; rewrite app_nil_r; repeat split; auto.
  - destruct (insert_telefone id tel b) as [b1|] eqn:E.
    + destruct (insert_telefone_linhas _ _ _ E)
        as [Hc [Hs [t [Ht [Hi [Hn [Hlt Hseq]]]]]]].
      destruct (IH b1) as [Hc' [Hs' [Hle [novos [Hts [Hall Hok]]]]]].
      repeat split; try congruence; try lia.
      exists (t :: novos); split; [|split].
      * rewrite Hts, Ht, <- app_assoc; reflexivity.
      * constructor; [repeat split; auto|].
        eapply Forall_impl; [|apply Hall]; simpl.
        intros u [H1 [H2 H3]]; repeat split; auto; lia.
      * intros Hex.
        assert (Hex1 : existe_contato id b1 = true)
          by (unfold existe_contato in *; rewrite Hc; auto).
        destruct (Hok Hex1) as [Hm Hsnd]; simpl; split; congruence.
    + destruct (IH b) as [Hc' [Hs' [Hle [novos [Hts [Hall Hok]]]]]].
      destruct (inserir_telefones id tels b) as [b2 ok] eqn:E2; simpl in *.
      repeat split; auto.
      exists novos; split; [|split]; auto.
      * eapply Forall_impl; [|apply Hall]; simpl; intros u; tauto.
      * intros Hex; unfold insert_telefone in E; rewrite Hex in E.
        discriminate.
Qed.

Lemma validos_sanitizados tels tel :
  In tel (map sanitizar (filter validarTelefone tels)) ->
  exists orig, In orig tels /\ validarTelefone orig = true /\
               tel = sanitizar orig.
Proof.
  intros H; apply in_map_iff in H; destruct H as [orig [E H]].
  apply filter_In in H; exists orig; intuition.
Qed.

Lemma criar_telefones p e t :
  In t (telefones (banco (fst (criar p e)))) ->
  In t (telefones (banco e)) \/
  exists tel, In tel (telefones_pedido p) /\ validarTelefone tel = true /\
              t_NUMERO t = sanitizar tel.
Proof.
  rewrite criar_eq.
  destruct (0 <? length _); auto.
  destruct (length (telefones_pedido p) =? 0); auto.
  destruct (length (filter _ _) =? 0); auto.
  destruct (insert_contato _ _ _) as [b1 cid] eqn:E1.
  pose proof (inserir_telefones_linhas cid
    (map sanitizar (filter validarTelefone (telefones_pedido p))) b1) as H.
  destruct (inserir_telefones _ _ b1) as [b2 ok]; simpl in *.
  destruct H as [_ [_ [_ [novos [Hts [Hall _]]]]]].
  rewrite Hts; intros Hin; apply in_app_iff in Hin; destruct Hin as [Hin|Hin].
  - left; inversion E1; subst; auto.
  - right; rewrite Forall_forall in Hall.
    destruct (Hall t Hin) as [_ [Hn _]].
    destruct (validos_sanitizados _ _ Hn) as [orig Ho]; exists orig; auto.
Qed.

Lemma atualizar_telefones id p e t :
  In t (telefones (banco (fst (atualizar id p e)))) ->
  In t (telefones (banco e)) \/
  exists tel, In tel (telefones_pedido p) /\ validarTelefone tel = true /\
              t_NUMERO t = sanitizar tel.
Proof.
  unfold atualizar.
  destruct (0 <? length _); auto.
  destruct (length (telefones_pedido p) =? 0); auto.
  destruct (length (filter _ _) =? 0); auto.
  destruct (update_contato _ _ _ _) as [b1 ch] eqn:E1.
  inversion E1; subst; clear E1.
  destruct (length _ =? 0); simpl; auto.
  match goal with
  | |- context [inserir_telefones ?i ?l ?b] =>
      pose proof (inserir_telefones_linhas i l b) as H;
      destruct (inserir_telefones i l b) as [b3 ok]
  end; simpl in *.
  destruct H as [_ [_ [_ [novos [Hts [Hall _]]]]]].
  rewrite Hts; intros Hin; apply in_app_iff in Hin; destruct Hin as [Hin|Hin].
  - left; apply filter_In in Hin; tauto.
  - right; rewrite Forall_forall in Hall.
    destruct (Hall t Hin) as [_ [Hn _]].
    destruct (validos_sanitizados _ _ Hn) as [orig Ho]; exists orig; auto.
Qed.

End Validacao.

Lemma C3_integridade_referencial_witness :
  exists c, In c (contatos (banco Exemplos.estado_ana)) /\ c_ID c = 1%Z.
Proof.
  apply (@C3_integridade_referencial Exemplos.estado_ana
           (alc_passo (OpCriar Exemplos.pedido_ana) alc_inicial)
           (mkTelefone 1 1 (txt "(11) 98765-4321"))).
  vm_compute; left; reflexivity.
Defined.

(** C5.  A create request of which no phone has a normalized form of 10 or
    11 digits is answered with HTTP 400 and leaves the state as it was: no
    contact row and no phone row is stored. *)
Theorem C5_criar_sem_telefone_valido :
  forall (p : Pedido) (e : Estado),
    filter validarTelefone (telefones_pedido p) = [] ->
    status (snd (criar p e)) = 400 /\ fst (criar p e) = e.
Proof.
  intros p e H; apply criar_sem_validos, H.
Qed.

Lemma C5_criar_sem_telefone_valido_witness :
  status (snd (criar Exemplos.pedido_curto inicial)) = 400 /\
  fst (criar Exemplos.pedido_curto inicial) = inicial.
Proof.
  apply (@C5_criar_sem_telefone_valido Exemplos.pedido_curto inicial).
  reflexivity.
Defined.




(** ** The SELECT statements *)

Section Consultas.

Variable juncao : Banco -> Contato -> list (option Telefone).
Variable onde : Contato -> option Telefone -> option bool.

Lemma SELECT_map_filter (b : Banco) :
  SELECT juncao onde b
  = map (linha_de juncao onde b)
        (filter (selecionado juncao onde b) (contatos b)).
Proof.
  unfold SELECT.
  match goal with |- flat_map ?g _ = _ => set (f := g) end.
  induction (contatos b) as [|c cs IH]; simpl; auto.
  assert (Hc : f c = if selecionado juncao onde b c
                     then [linha_de juncao onde b c] else []).
  { unfold f, selecionado, linha_de, linhas_aceitas.
    destruct (filter _ (juncao b c)); reflexivity. }
  rewrite IH, Hc; destruct (selecionado juncao onde b c); reflexivity.
Qed.

Lemma SELECT_In (b : Banco) (row : Linha) :
  In row (SELECT juncao onde b) <->
  exists c, In c (contatos b) /\ selecionado juncao onde b c = true /\
            row = linha_de juncao onde b c.
Proof.
  rewrite SELECT_map_filter, in_map_iff; split.
  - intros [c [E H]]; apply filter_In in H; exists c; intuition.
  - intros [c [H1 [H2 E]]]; exists c; split; auto; apply filter_In; auto.
Qed.

Lemma SELECT_ids (b : Banco) :
  map l_ID (SELECT juncao onde b)
  = map c_ID (filter (selecionado juncao onde b) (contatos b)).
Proof. rewrite SELECT_map_filter, map_map; reflexivity. Qed.

Lemma SELECT_NoDup (b : Banco) :
  NoDup (map c_ID (contatos b)) -> NoDup (map l_ID (SELECT juncao onde b)).
Proof. rewrite SELECT_ids; apply NoDup_map_filter. Qed.

End Consultas.

Section Ordenacao.

Lemma texto_leb_total (a : texto) :
  forall b, texto_leb a b = false -> texto_leb b a = true.
Proof.
  induction a as [|x a IH]; intros [|y b]; simpl; auto; try discriminate.
  destruct (JS.codigo x <? JS.codigo y) eqn:E1; [discriminate|].
  destruct (JS.codigo y <? JS.codigo x) eqn:E2; auto.
Qed.

Lemma inserir_ordenado_perm l ls : Permutation (inserir_ordenado l ls) (l :: ls).
Proof.
  induction ls as [|m ms IH]; simpl; auto.
  destruct (texto_leb (l_NOME l) (l_NOME m)); auto.
  rewrite IH; apply perm_swap.
Qed.

Lemma inserir_ordenado_sorted l ls :
  Sorted por_nome ls -> Sorted por_nome (inserir_ordenado l ls).
Proof.
  induction 1 as [|m ms Hs IH Hd]; simpl.
  - repeat constructor.
  - destruct (texto_leb (l_NOME l) (l_NOME m)) eqn:E.
    + constructor; [constructor; auto | constructor; exact E].
    + constructor; auto.
      apply texto_leb_total in E.
      destruct ms as [|n ns]; simpl.
      * constructor; exact E.
      * destruct (texto_leb (l_NOME l) (l_NOME n)); constructor; auto.
        inversion Hd; auto.
Qed.

Lemma ORDER_BY_NOME_perm ls : Permutation (ORDER_BY_NOME ls) ls.
Proof.
  induction ls as [|l ls IH]; simpl; auto.
  rewrite inserir_ordenado_perm; auto.
Qed.

Lemma ORDER_BY_NOME_sorted ls : Sorted por_nome (ORDER_BY_NOME ls).
Proof.
  induction ls as [|l ls IH]; simpl; [constructor|].
  apply inserir_ordenado_sorted, IH.
Qed.

Lemma ORDER_BY_NOME_In ls row : In row (ORDER_BY_NOME ls) <-> In row ls.
Proof.
  split; apply Permutation_in;
    [|apply Permutation_sym]; apply ORDER_BY_NOME_perm.
Qed.

Lemma contatos_ordenados ls :
  Sorted por_nome ls -> ordenada_por_nome (map contato_da_linha ls).
Proof.
  unfold ordenada_por_nome; induction 1 as [|l ls Hs IH Hd]; simpl.
  - constructor.
  - constructor; auto.
    destruct Hd; simpl; constructor; auto.
Qed.

Lemma ids_das_linhas ls :
  map ID (map contato_da_linha ls) = map l_ID ls.
Proof. rewrite map_map; reflexivity. Qed.

End Ordenacao.

(** ** GROUP_CONCAT with ['||'] and [split('||')] *)

Section Separador.

Lemma GROUP_CONCAT_Some sep (ts : list Telefone) :
  GROUP_CONCAT sep (map NUMERO (map Some ts))
  = match ts with
    | [] => None
    | _ => Some (JS.join sep (map t_NUMERO ts))
    end.
Proof.
  unfold GROUP_CONCAT.
  assert (E : flat_map (fun x : option texto =>
                          match x with Some s => [s] | None => [] end)
                       (map NUMERO (map Some ts)) = map t_NUMERO ts).
  { induction ts as [|t ts IH]; simpl; auto; rewrite IH; auto. }
  rewrite E; destruct ts; reflexivity.
Qed.

Lemma GROUP_CONCAT_LEFT_JOIN (b : Banco) (c : Contato) :
  GROUP_CONCAT (txt "||") (map NUMERO (LEFT_JOIN b c))
  = GROUP_CONCAT (txt "||") (map Some (numeros_de b (c_ID c))).
Proof.
  unfold LEFT_JOIN, numeros_de.
  destruct (telefones_de b (c_ID c)) as [|t ts] eqn:E; [reflexivity|].
  rewrite <- E; f_equal; rewrite !map_map; reflexivity.
Qed.

Lemma split_sem_barra (p : texto) :
  sem_barra p -> JS.split_de (txt "||") 0 p = [p].
Proof.
  change (txt "||") with ["|"%char; "|"%char].
  unfold sem_barra; induction p as [|c p IH]; cbn -[Ascii.eqb]; intros H; auto.
  destruct (Ascii.eqb_spec "|" c) as [E|E].
  - exfalso; apply H; auto.
  - cbn -[Ascii.eqb]; rewrite IH; auto.
Qed.

Lemma split_join_cons (p : texto) (resto : texto) :
  sem_barra p ->
  JS.split_de (txt "||") 0 (p ++ txt "||" ++ resto)
  = p :: JS.split_de (txt "||") 0 resto.
Proof.
  change (txt "||") with ["|"%char; "|"%char].
  unfold sem_barra; induction p as [|c p IH]; cbn -[Ascii.eqb]; intros H.
  - reflexivity.
  - destruct (Ascii.eqb_spec "|" c) as [E|E].
    + exfalso; apply H; auto.
    + cbn -[Ascii.eqb] in *; rewrite IH; auto.
Qed.

Lemma split_join (ps : list texto) :
  ps <> [] -> Forall sem_barra ps ->
  JS.split (txt "||") (JS.join (txt "||") ps) = ps.
Proof.
  unfold JS.split; induction ps as [|p ps IH]; [tauto|].
  intros _ H; inversion H as [|? ? Hp Hps]; subst.
  destruct ps as [|q ps].
  - simpl; apply split_sem_barra; auto.
  - change (JS.join (txt "||") (p :: q :: ps))
      with (p ++ txt "||" ++ JS.join (txt "||") (q :: ps)).
    rewrite split_join_cons, IH; auto; discriminate.
Qed.

(** For phones without a vertical bar the array of a response is the list
    of the concatenated phones. *)
Lemma telefones_da_linha_sem_barra (nums : list texto) :
  Forall (fun s => sem_barra s /\ s <> []) nums ->
  telefones_da_linha (GROUP_CONCAT (txt "||") (map Some nums)) = nums.
Proof.
  intros H; unfold GROUP_CONCAT.
  assert (E : flat_map (fun x : option texto =>
                          match x with Some s => [s] | None => [] end)
                       (map Some nums) = nums).
  { clear H; induction nums as [|t ts IH]; simpl; auto; rewrite IH; auto. }
  rewrite E; destruct nums as [|p ps]; [reflexivity|].
  unfold telefones_da_linha.
  assert (Hne : JS.verdadeiro (JS.join (txt "||") (p :: ps)) = true).
  { inversion H as [|? ? [_ Hp] _]; subst.
    destruct p; [tauto|]; destruct ps; reflexivity. }
  rewrite Hne; apply split_join; [discriminate|].
  eapply Forall_impl; [|apply H]; simpl; tauto.
Qed.

End Separador.

(** ** Creation and update: what is stored *)

Section Escrita.

Lemma idade_valida n i : validarContato n i = [] -> idade_ou_null i = i.
Proof.
  unfold validarContato; intros H; apply app_eq_nil in H; destruct H as [_ H].
  destruct i as [z|]; simpl; auto.
  destruct (z =? 0)%Z eqn:E; auto.
  apply Z.eqb_eq in E; subst; simpl in H; discriminate.
Qed.

Lemma filter_nao_vazio {A} (f : A -> bool) (l : list A) :
  filter f l <> [] -> (length l =? 0) = false /\ (length (filter f l) =? 0) = false.
Proof.
  intros H; split.
  - destruct l; simpl in *; [tauto | reflexivity].
  - destruct (filter f l); [tauto | reflexivity].
Qed.

Lemma existe_contato_changes id b :
  (length (filter (fun c => c_ID c =? id)%Z (contatos b)) =? 0)
  = negb (existe_contato id b).
Proof.
  unfold existe_contato; induction (contatos b) as [|c cs IH]; simpl; auto.
  destruct (c_ID c =? id)%Z; simpl; auto.
Qed.

Lemma map_sem_alteracao {A} (f : A -> A) (p : A -> bool) (l : list A) :
  (forall x, In x l -> p x = false) ->
  map (fun x => if p x then f x else x) l = l.
Proof.
  induction l as [|x l IH]; simpl; intros H; auto.
  rewrite (H x), IH; auto.
Qed.

Lemma update_contato_ausente nome idade id b :
  existe_contato id b = false -> fst (update_contato nome idade id b) = b.
Proof.
  intros H; destruct b as [cs ts sc st]; unfold update_contato; simpl.
  f_equal.
  apply (map_sem_alteracao (fun c => mkContato (c_ID c) nome idade)
                           (fun c => (c_ID c =? id)%Z)).
  intros c Hc; destruct (c_ID c =? id)%Z eqn:E; auto.
  unfold existe_contato in H; simpl in H.
  assert (Ht : existsb (fun c => (c_ID c =? id)%Z) cs = true)
    by (apply existsb_exists; exists c; auto).
  congruence.
Qed.


Lemma NoDup_map_inj {A B} (f : A -> B) (l : list A) x y :
  NoDup (map f l) -> In x l -> In y l -> f x = f y -> x = y.
Proof.
  induction l as [|z l IH]; simpl; [tauto|].
  intros H Hx Hy E; inversion H as [|? ? Hz Hl]; subst.
  destruct Hx as [->|Hx], Hy as [->|Hy]; auto.
  - exfalso; apply Hz; rewrite E; apply in_map; auto.
  - exfalso; apply Hz; rewrite <- E; apply in_map; auto.
Qed.

(** A valid POST stores the contact under a new ID with the sanitized
    valid phones of the request and answers 201 with that ID. *)
Lemma criar_sucesso p e :
  pedido_valido p ->
  let b := banco e in
  let b' := banco (fst (criar p e)) in
  let cid := proximo_id (seq_contato b) (map c_ID (contatos b)) in
  snd (criar p e) = mkResposta 201 (CId cid) /\
  contatos b' = contatos b ++ [mkContato cid (sanitizar (nome p)) (idade p)] /\
  log (fst (criar p e)) = log e /\
  exists novos,
    telefones b' = telefones b ++ novos /\
    map t_NUMERO novos
    = map sanitizar (filter validarTelefone (telefones_pedido p)) /\
    Forall (fun t => t_IDCONTATO t = cid) novos.
Proof.
  intros [Hv Hf]; simpl; rewrite criar_eq, Hv; simpl.
  destruct (filter_nao_vazio _ _ Hf) as [E1 E2]; rewrite E1, E2.
  rewrite (idade_valida _ _ Hv).
  unfold insert_contato.
  set (cid := proximo_id _ _).
  set (b1 := mkBanco _ _ _ _).
  pose proof (inserir_telefones_linhas cid
    (map sanitizar (filter validarTelefone (telefones_pedido p))) b1) as H.
  destruct (inserir_telefones cid _ b1) as [b2 ok]; simpl in H.
  destruct H as [Hc [_ [_ [novos [Hts [Hall Hok]]]]]].
  assert (Hex : existe_contato cid b1 = true).
  { apply existe_contato_In; eexists; split;
      [simpl; apply in_app_iff; right; left; reflexivity | reflexivity]. }
  destruct (Hok Hex) as [Hm Hsnd]; subst ok; simpl.
  repeat split; auto.
  exists novos; repeat split; auto.
  eapply Forall_impl; [|apply Hall]; simpl; tauto.
Qed.

(** A valid PUT for a stored contact. *)
Lemma atualizar_existente id p e :
  pedido_valido p -> existe_contato id (banco e) = true ->
  let b := banco e in
  let b' := banco (fst (atualizar id p e)) in
  snd (atualizar id p e) = mkResposta 200 CMensagem /\
  contatos b'
  = map (fun c => if (c_ID c =? id)%Z
                  then mkContato (c_ID c) (sanitizar (nome p)) (idade p)
                  else c) (contatos b) /\
  log (fst (atualizar id p e)) = log e /\
  exists novos,
    telefones b'
    = filter (fun t => negb (t_IDCONTATO t =? id)%Z) (telefones b) ++ novos /\
    map t_NUMERO novos
    = map sanitizar (filter validarTelefone (telefones_pedido p)) /\
    Forall (fun t => t_IDCONTATO t = id /\ (seq_telefone b < t_ID t)%Z) novos.
Proof.
  intros [Hv Hf] Hex; simpl; unfold atualizar; rewrite Hv; simpl.
  destruct (filter_nao_vazio _ _ Hf) as [E1 E2]; rewrite E1, E2.
  rewrite (idade_valida _ _ Hv), existe_contato_changes, Hex; simpl.
  match goal with
  | |- context [inserir_telefones ?i ?l ?b] =>
      pose proof (inserir_telefones_linhas i l b) as H;
      assert (Hex2 : existe_contato i b = true);
      [|destruct (inserir_telefones i l b) as [b3 ok]]
  end.
  { apply existe_contato_ids; simpl; rewrite map_map.
    erewrite map_ext; [apply existe_contato_ids; exact Hex|].
    intros c; destruct (c_ID c =? id)%Z; reflexivity. }
  simpl in H; destruct H as [Hc [_ [_ [novos [Hts [Hall Hok]]]]]].
  destruct (Hok Hex2) as [Hm Hsnd]; subst ok; simpl.
  repeat split; auto.
  exists novos; repeat split; auto.
  eapply Forall_impl; [|apply Hall]; simpl; tauto.
Qed.

Lemma atualizar_ausente id p e :
  pedido_valido p -> existe_contato id (banco e) = false ->
  snd (atualizar id p e) = mkResposta 404 (CErro [ContatoNaoEncontrado]) /\
  fst (atualizar id p e) = e.
Proof.
  intros [Hv Hf] Hex; unfold atualizar; rewrite Hv; simpl.
  destruct (filter_nao_vazio _ _ Hf) as [E1 E2]; rewrite E1, E2.
  rewrite (idade_valida _ _ Hv), existe_contato_changes, Hex; simpl.
  split; auto.
  pose proof (update_contato_ausente (sanitizar (nome p)) (idade p) _ _ Hex) as H.
  simpl in H; rewrite H; destruct e; reflexivity.
Qed.

End Escrita.




(** ** Reading and deleting one contact *)

Section Leitura.

Lemma filter_constante {A} (v : bool) (l : list A) :
  filter (fun _ => v) l = if v then l else [].
Proof.
  induction l as [|x l IH]; simpl; [destruct v; reflexivity|].
  rewrite IH; destruct v; reflexivity.
Qed.

Lemma filter_ausente {A} (f : A -> Z) (l : list A) (i : Z) :
  ~ In i (map f l) -> filter (fun x => f x =? i)%Z l = [].
Proof.
  induction l as [|x l IH]; simpl; auto; intros H.
  destruct (f x =? i)%Z eqn:E.
  - apply Z.eqb_eq in E; tauto.
  - apply IH; tauto.
Qed.

Lemma filter_unico {A} (f : A -> Z) (l : list A) (c : A) :
  NoDup (map f l) -> In c l -> filter (fun x => f x =? f c)%Z l = [c].
Proof.
  induction l as [|x l IH]; simpl; [tauto|].
  intros H Hc; inversion H as [|? ? Hx Hl]; subst.
  destruct Hc as [->|Hc].
  - rewrite Z.eqb_refl, filter_ausente; auto.
  - destruct (f x =? f c)%Z eqn:E; auto.
    apply Z.eqb_eq in E; exfalso; apply Hx; rewrite E; apply in_map; auto.
Qed.

Lemma LEFT_JOIN_nao_vazio b c : LEFT_JOIN b c <> [].
Proof.
  unfold LEFT_JOIN; destruct (telefones_de b (c_ID c)); discriminate.
Qed.

Lemma aceitas_por_id id b c :
  linhas_aceitas LEFT_JOIN (fun c _ => Some (c_ID c =? id)%Z) b c
  = if (c_ID c =? id)%Z then LEFT_JOIN b c else [].
Proof.
  unfold linhas_aceitas; destruct (c_ID c =? id)%Z; simpl.
  - apply (filter_constante true).
  - apply (filter_constante false).
Qed.

Lemma selecionado_por_id id b c :
  selecionado LEFT_JOIN (fun c _ => Some (c_ID c =? id)%Z) b c
  = (c_ID c =? id)%Z.
Proof.
  unfold selecionado; rewrite aceitas_por_id.
  destruct (c_ID c =? id)%Z; auto.
  pose proof (LEFT_JOIN_nao_vazio b c).
  destruct (LEFT_JOIN b c); tauto.
Qed.

(** The row [db.get] delivers for a stored contact. *)
Lemma sql_buscar_existente b c :
  NoDup (map c_ID (contatos b)) -> In c (contatos b) ->
  sql_buscar (c_ID c) b
  = Some (mkLinha (c_ID c) (c_NOME c) (c_IDADE c)
            (GROUP_CONCAT (txt "||") (map Some (numeros_de b (c_ID c))))).
Proof.
  intros Hnd Hc; unfold sql_buscar.
  rewrite SELECT_map_filter.
  erewrite filter_ext; [|intros d; apply selecionado_por_id].
  rewrite (filter_unico c_ID _ c Hnd Hc); simpl.
  unfold linha_de; rewrite aceitas_por_id, Z.eqb_refl.
  rewrite GROUP_CONCAT_LEFT_JOIN; reflexivity.
Qed.

Lemma sql_buscar_ausente id b :
  existe_contato id b = false -> sql_buscar id b = None.
Proof.
  intros H; unfold sql_buscar.
  rewrite SELECT_map_filter.
  erewrite filter_ext; [|intros d; apply selecionado_por_id].
  rewrite filter_ausente; [reflexivity|].
  intros Hin; apply existe_contato_ids in Hin; congruence.
Qed.

Lemma delete_contato_remove id b :
  existe_contato id (delete_contato id b) = false.
Proof.
  unfold delete_contato; destruct (existe_contato id b) eqn:E; auto.
  unfold existe_contato; simpl.
  apply not_true_is_false; rewrite existsb_exists.
  intros [c [Hc Hid]]; apply filter_In in Hc; destruct Hc as [_ Hn].
  rewrite Hid in Hn; discriminate.
Qed.






Lemma obter_existente e c :
  NoDup (map c_ID (contatos (banco e))) -> In c (contatos (banco e)) ->
  obter (c_ID c) e
  = mkResposta 200
      (CContato (mkContatoJson (c_ID c) (c_NOME c) (c_IDADE c)
         (telefones_da_linha
            (GROUP_CONCAT (txt "||")
               (map Some (numeros_de (banco e) (c_ID c))))))).
Proof.
  intros Hnd Hc; unfold obter.
  change (sql_obter (c_ID c) (banco e)) with (sql_buscar (c_ID c) (banco e)).
  rewrite sql_buscar_existente; auto.
Qed.

Lemma obter_ausente id e :
  existe_contato id (banco e) = false ->
  obter id e = mkResposta 404 (CErro [ContatoNaoEncontrado]).
Proof.
  intros H; unfold obter.
  change (sql_obter id (banco e)) with (sql_buscar id (banco e)).
  rewrite sql_buscar_ausente; auto.
Qed.

End Leitura.


(** The deletion of the contact created by [pedido_ana]. *)
Example excluir_ana :
  status (snd (excluir (txt "2025-11-05T14:30:15.000Z") 1 Exemplos.estado_ana))
  = 200 /\
  log (fst (excluir (txt "2025-11-05T14:30:15.000Z") 1 Exemplos.estado_ana))
  = [txt "[2025-11-05T14:30:15.000Z] ID: 1 | NOME: Ana | TELEFONES: (11) 98765-4321"
         ++ [ascii_of_nat 10]] /\
  banco (fst (excluir (txt "2025-11-05T14:30:15.000Z") 1 Exemplos.estado_ana))
  = mkBanco [] [] 1 1.
Proof. vm_compute; repeat split; reflexivity. Qed.

(** C4 fails on a contact with a phone that contains [||]: the handler reads
    the phones of the contact through GROUP_CONCAT and [split('||')], as
    the list does, and the audit line of the contact created with the one
    phone [1198765||4321] names the two phones [1198765] and [4321]. *)
Theorem C4_excluir_telefone_com_separador :
  numeros_de (banco Exemplos.estado_barras) 1 = [txt "1198765||4321"] /\
  status (snd (excluir (txt "2025-11-05T14:30:15.000Z") 1
                       Exemplos.estado_barras)) = 200 /\
  log (fst (excluir (txt "2025-11-05T14:30:15.000Z") 1 Exemplos.estado_barras))
  = [txt "[2025-11-05T14:30:15.000Z] ID: 1 | NOME: Caio | TELEFONES: 1198765, 4321"
         ++ [ascii_of_nat 10]].
Proof. vm_compute; repeat split; reflexivity. Qed.

(** ** LIKE with the pattern [%termo%] *)

Section Like.

Lemma like_pct_eq (p x : texto) :
  like ("%"%char :: p) x
  = like p x || match x with [] => false | _ :: x' => like ("%"%char :: p) x' end.
Proof. destruct x; reflexivity. Qed.


Lemma like_pct (p x : texto) :
  like ("%"%char :: p) x = true <-> exists a r, x = a ++ r /\ like p r = true.
Proof.
  induction x as [|d x IH]; rewrite like_pct_eq.
  - rewrite orb_false_r; split.
    + intros H; exists [], []; auto.
    + intros [a [r [E H]]].
      symmetry in E; apply app_eq_nil in E; destruct E; subst; auto.
  - rewrite orb_true_iff, IH; split.
    + intros [H|[a [r [E H]]]].
      * exists [], (d :: x); auto.
      * exists (d :: a), r; subst; auto.
    + intros [[|d' a] [r [E H]]]; simpl in E.
      * left; subst; auto.
      * right; inversion E; subst; exists a, r; auto.
Qed.

Lemma like_pct_final (x : texto) : like ["%"%char] x = true.
Proof.
  apply like_pct; exists x, []; rewrite app_nil_r; auto.
Qed.








Lemma numero_sql_digitos (n : texto) :
  filter JS.eh_digito (numero_sql n) = filter JS.eh_digito n.
Proof.
  unfold numero_sql; induction n as [|c n IH]; simpl; auto.
  destruct (JS.eh_digito c) eqn:Ed.
  - assert (H : Ascii.eqb c "(" = false /\ Ascii.eqb c ")" = false /\
                Ascii.eqb c "-" = false /\ Ascii.eqb c " " = false).
    { repeat split; apply Ascii.eqb_neq; intros ->; vm_compute in Ed;
        discriminate. }
    destruct H as [H1 [H2 [H3 H4]]].
    cbn -[Ascii.eqb]; rewrite H1; cbn -[Ascii.eqb]; rewrite H2.
    cbn -[Ascii.eqb]; rewrite H3; cbn -[Ascii.eqb]; rewrite H4.
    cbn -[Ascii.eqb]; rewrite Ed, IH; reflexivity.
  - cbn -[Ascii.eqb].
    destruct (Ascii.eqb c "("); cbn -[Ascii.eqb]; auto.
    destruct (Ascii.eqb c ")"); cbn -[Ascii.eqb]; auto.
    destruct (Ascii.eqb c "-"); cbn -[Ascii.eqb]; auto.
    destruct (Ascii.eqb c " "); cbn -[Ascii.eqb]; auto.
    rewrite Ed; auto.
Qed.

Lemma filter_todos {A} (f : A -> bool) (l : list A) :
  Forall (fun x => f x = true) l -> filter f l = l.
Proof.
  induction 1 as [|x l Hx Hl IH]; simpl; auto; rewrite Hx, IH; auto.
Qed.


(** On a number written with digits, parentheses, hyphens and spaces the
    SQL normalization is the digit-only normalization. *)
Lemma numero_sql_formato_usual (n : texto) :
  formato_usual n -> numero_sql n = normalizarNumero n.
Proof.
  intros H; rewrite normalizarNumero_digitos, <- numero_sql_digitos.
  symmetry; apply filter_todos.
  unfold numero_sql; rewrite Forall_forall; intros c Hc.
  repeat (apply filter_In in Hc; destruct Hc as [Hc ?]).
  unfold formato_usual in H; rewrite Forall_forall in H.
  destruct (H c Hc) as [Hd|[E|[E|[E|E]]]]; auto; subst c; discriminate.
Qed.

End Like.

(** ** The search *)

Section Pesquisa.

Lemma onde_pesquisa_verdade termo c t :
  eh_verdade (onde_pesquisa termo c t)
  = nome_casa termo c
    || match t with Some t' => telefone_casa termo t' | None => false end.
Proof.
  unfold onde_pesquisa, nome_casa, telefone_casa, padrao, LIKE,
    SQL_NUMERO_NORMALIZADO, REPLACE, NUMERO.
  destruct t as [t'|]; cbn [option_map].
  - change (filter _ (filter _ (filter _ (filter _ (t_NUMERO t')))))
      with (numero_sql (t_NUMERO t')).
    destruct (like (txt "%" ++ termo ++ txt "%") (c_NOME c));
      destruct (like (txt "%" ++ normalizarNumero termo ++ txt "%")
                     (numero_sql (t_NUMERO t'))); reflexivity.
  - destruct (like (txt "%" ++ termo ++ txt "%") (c_NOME c)); reflexivity.
Qed.

Lemma filter_map_Some {A} (f : A -> bool) (l : list A) :
  filter (fun t => match t with Some t' => f t' | None => false end)
         (map Some l)
  = map Some (filter f l).
Proof.
  induction l as [|x l IH]; simpl; auto.
  destruct (f x); simpl; rewrite IH; auto.
Qed.

(** The joined rows the search keeps for a contact: all of them when the
    name matches, otherwise the phones that match. *)
Lemma aceitas_pesquisa termo b c :
  linhas_aceitas LEFT_JOIN (onde_pesquisa termo) b c
  = if nome_casa termo c then LEFT_JOIN b c
    else map Some (filter (telefone_casa termo) (telefones_de b (c_ID c))).
Proof.
  unfold linhas_aceitas.
  erewrite filter_ext; [|intros t; apply onde_pesquisa_verdade].
  destruct (nome_casa termo c); simpl.
  - apply (filter_constante true).
  - unfold LEFT_JOIN; destruct (telefones_de b (c_ID c)) eqn:E.
    + reflexivity.
    + apply filter_map_Some.
Qed.

Lemma selecionado_pesquisa termo b c :
  selecionado LEFT_JOIN (onde_pesquisa termo) b c
  = nome_casa termo c
    || existsb (telefone_casa termo) (telefones_de b (c_ID c)).
Proof.
  unfold selecionado; rewrite aceitas_pesquisa.
  destruct (nome_casa termo c); simpl.
  - pose proof (LEFT_JOIN_nao_vazio b c); destruct (LEFT_JOIN b c); tauto.
  - induction (telefones_de b (c_ID c)) as [|t ts IH]; simpl; auto.
    destruct (telefone_casa termo t); simpl; auto.
Qed.

Lemma pesquisar_eq termo e :
  JS.trim termo <> [] ->
  pesquisar termo e
  = mkResposta 200
      (CLista (map contato_da_linha
                   (ORDER_BY_NOME
                      (SELECT LEFT_JOIN (onde_pesquisa termo) (banco e))))).
Proof.
  intros H; unfold pesquisar.
  destruct (JS.trim termo); [tauto | reflexivity].
Qed.

Lemma linha_vem_do_banco juncao onde b row :
  In row (SELECT juncao onde b) -> vem_do_banco b (contato_da_linha row).
Proof.
  intros H; apply SELECT_In in H; destruct H as [c [Hc [_ ->]]].
  exists c; auto.
Qed.

(** Membership of a stored contact in the result of a SELECT. *)
Lemma SELECT_tem_id juncao onde b c :
  NoDup (map c_ID (contatos b)) -> In c (contatos b) ->
  (In (c_ID c) (map l_ID (SELECT juncao onde b)) <->
   selecionado juncao onde b c = true).
Proof.
  intros Hnd Hc; rewrite SELECT_ids, in_map_iff; split.
  - intros [d [E Hd]]; apply filter_In in Hd; destruct Hd as [Hd Hs].
    rewrite <- (@NoDup_map_inj _ _ c_ID _ d c Hnd Hd Hc E); auto.
  - intros H; exists c; split; auto; apply filter_In; auto.
Qed.


Lemma existsb_telefones_de (f : Telefone -> bool) b id :
  existsb f (telefones_de b id) = true <->
  exists t, In t (telefones b) /\ t_IDCONTATO t = id /\ f t = true.
Proof.
  rewrite existsb_exists; unfold telefones_de; split.
  - intros [t [Ht Hf]]; apply filter_In in Ht; destruct Ht as [Ht E].
    apply Z.eqb_eq in E; eauto.
  - intros [t [Ht [E Hf]]]; exists t; split; auto.
    apply filter_In; split; auto; apply Z.eqb_eq; auto.
Qed.

Lemma ids_ordenados ls :
  Permutation (map l_ID (ORDER_BY_NOME ls)) (map l_ID ls).
Proof. apply Permutation_map, ORDER_BY_NOME_perm. Qed.

End Pesquisa.




Section TelefonesDaPesquisa.

Lemma NUMERO_Some (ts : list Telefone) :
  map NUMERO (map Some ts) = map Some (map t_NUMERO ts).
Proof. rewrite !map_map; reflexivity. Qed.


(** The row of the search for a contact whose name matches. *)
Lemma linha_pesquisa_por_nome termo b c :
  nome_casa termo c = true ->
  linha_de LEFT_JOIN (onde_pesquisa termo) b c
  = mkLinha (c_ID c) (c_NOME c) (c_IDADE c)
      (GROUP_CONCAT (txt "||") (map Some (numeros_de b (c_ID c)))).
Proof.
  intros H; unfold linha_de; rewrite aceitas_pesquisa, H.
  rewrite GROUP_CONCAT_LEFT_JOIN; reflexivity.
Qed.

Lemma existsb_filter_nao_vazio {A} (f : A -> bool) (l : list A) :
  existsb f l = true -> filter f l <> [].
Proof.
  induction l as [|x l IH]; simpl; [discriminate|].
  destruct (f x); simpl; [discriminate | auto].
Qed.

End TelefonesDaPesquisa.


(** Of the two phones of the contact, the search for [7890] returns the one
    that matches, get-by-id both. *)
Example pesquisar_davi :
  pesquisar (txt "7890") Exemplos.estado_dois
  = mkResposta 200
      (CLista [mkContatoJson 1 (txt "Davi") None [txt "(11) 3456-7890"]]) /\
  obter 1 Exemplos.estado_dois
  = mkResposta 200
      (CContato (mkContatoJson 1 (txt "Davi") None
                   [txt "(11) 98765-4321"; txt "(11) 3456-7890"])).
Proof. vm_compute; split; reflexivity. Qed.


(** ** The duplicate check *)

Section Duplicatas.

Lemma branco_nao_digito (c : ascii) :
  JS.eh_branco c = true -> JS.eh_digito c = false.
Proof.
  unfold JS.eh_branco, JS.eh_digito; intros H.
  apply andb_false_iff.
  destruct (48 <=? JS.codigo c) eqn:E1; [right | left; reflexivity].
  destruct (JS.codigo c <=? 57) eqn:E2; [|reflexivity].
  apply Nat.leb_le in E1, E2.
  repeat rewrite orb_true_iff in H; rewrite andb_true_iff in H.
  destruct H as [[[H1 H2]|H]|H].
  - apply Nat.leb_le in H2; lia.
  - apply Nat.eqb_eq in H; lia.
  - apply Nat.eqb_eq in H; lia.
Qed.

Lemma trimStart_digitos (s : texto) :
  filter JS.eh_digito (JS.trimStart s) = filter JS.eh_digito s.
Proof.
  induction s as [|c s IH]; simpl; auto.
  destruct (JS.eh_branco c) eqn:E; [|reflexivity].
  rewrite (branco_nao_digito _ E); exact IH.
Qed.

Lemma trim_digitos (s : texto) :
  filter JS.eh_digito (JS.trim s) = filter JS.eh_digito s.
Proof.
  unfold JS.trim, JS.trimEnd.
  rewrite filter_rev, trimStart_digitos, <- filter_rev, rev_involutive.
  apply trimStart_digitos.
Qed.

Lemma trimStart_In (s : texto) c : In c (JS.trimStart s) -> In c s.
Proof.
  induction s as [|d s IH]; simpl; auto.
  destruct (JS.eh_branco d); simpl; auto.
Qed.

Lemma trim_In (s : texto) c : In c (JS.trim s) -> In c s.
Proof.
  unfold JS.trim, JS.trimEnd; intros H.
  apply in_rev, trimStart_In, in_rev in H.
  apply trimStart_In; exact H.
Qed.

Lemma trimStart_length (s : texto) : length (JS.trimStart s) <= length s.
Proof.
  induction s as [|d s IH]; simpl; auto.
  destruct (JS.eh_branco d); simpl; lia.
Qed.

Lemma trim_length (s : texto) : length (JS.trim s) <= length s.
Proof.
  unfold JS.trim, JS.trimEnd; rewrite length_rev.
  etransitivity; [apply trimStart_length|].
  rewrite length_rev; apply trimStart_length.
Qed.

(** A phone of at most 200 code units keeps its digits when sanitized. *)
Lemma sanitizar_digitos (tel : texto) :
  length tel <= 200 ->
  normalizarNumero (sanitizar tel) = normalizarNumero tel.
Proof.
  intros H; unfold sanitizar, JS.substring0.
  rewrite firstn_all2 by (pose proof (trim_length tel); lia).
  rewrite !normalizarNumero_digitos; apply trim_digitos.
Qed.

Lemma sanitizar_formato_usual (tel : texto) :
  formato_usual tel -> formato_usual (sanitizar tel).
Proof.
  unfold formato_usual, sanitizar, JS.substring0; rewrite !Forall_forall.
  intros H c Hc; apply H, trim_In.
  rewrite <- (firstn_skipn 200 (JS.trim tel)); apply in_app_iff; auto.
Qed.

Lemma onde_verificar_verdade ns c t :
  eh_verdade (onde_verificar ns c (Some t)) = telefone_duplicado ns t.
Proof.
  unfold onde_verificar, telefone_duplicado, IN, SQL_NUMERO_NORMALIZADO,
    REPLACE, NUMERO; cbn [option_map eh_verdade].
  change (filter _ (filter _ (filter _ (filter _ (t_NUMERO t)))))
    with (numero_sql (t_NUMERO t)).
  match goal with
  | |- context [existsb ?f ns] => destruct (existsb f ns)
  end; reflexivity.
Qed.

Lemma aceitas_verificar ns b c :
  linhas_aceitas INNER_JOIN (onde_verificar ns) b c
  = map Some (filter (telefone_duplicado ns) (telefones_de b (c_ID c))).
Proof.
  unfold linhas_aceitas, INNER_JOIN.
  induction (telefones_de b (c_ID c)) as [|t ts IH]; cbn [map filter]; auto.
  rewrite onde_verificar_verdade, IH.
  destruct (telefone_duplicado ns t); reflexivity.
Qed.

Lemma selecionado_verificar ns b c :
  selecionado INNER_JOIN (onde_verificar ns) b c
  = existsb (telefone_duplicado ns) (telefones_de b (c_ID c)).
Proof.
  unfold selecionado; rewrite aceitas_verificar.
  induction (telefones_de b (c_ID c)) as [|t ts IH]; simpl; auto.
  destruct (telefone_duplicado ns t); simpl; auto.
Qed.

Lemma telefone_duplicado_In ns t :
  telefone_duplicado ns t = true <-> In (numero_sql (t_NUMERO t)) ns.
Proof.
  unfold telefone_duplicado; rewrite existsb_exists; split.
  - intros [v [Hv E]].
    destruct (list_eq_dec ascii_dec (numero_sql (t_NUMERO t)) v);
      [subst; auto | discriminate].
  - intros H; exists (numero_sql (t_NUMERO t)); split; auto.
    destruct (list_eq_dec ascii_dec _ _); auto.
Qed.

Lemma numeros_candidatos_In candidatos x :
  In x (numeros_candidatos candidatos) <->
  exists tel, In tel candidatos /\ normalizarNumero tel = x /\ x <> [].
Proof.
  unfold numeros_candidatos; rewrite filter_In, in_map_iff; split.
  - intros [[tel [E H]] Hn]; exists tel; repeat split; auto.
    intros ->; discriminate.
  - intros [tel [H [E Hn]]]; split; [eauto|].
    destruct x; [tauto | reflexivity].
Qed.

Lemma verificar_eq candidatos e :
  verificar candidatos e
  = mkResposta 200
      (CDuplicatas
         (if (length candidatos =? 0)
             || (length (numeros_candidatos candidatos) =? 0)
          then []
          else map contato_da_linha
                   (SELECT INNER_JOIN
                      (onde_verificar (numeros_candidatos candidatos))
                      (banco e)))).
Proof.
  unfold verificar.
  destruct (length candidatos =? 0); [reflexivity|].
  fold (numeros_candidatos candidatos).
  match goal with
  | |- (if ?c then _ else _) = _ =>
      change c with (length (numeros_candidatos candidatos) =? 0)
  end.
  destruct (length (numeros_candidatos candidatos) =? 0); reflexivity.
Qed.

End Duplicatas.

(** What the duplicate check returns. *)
Lemma verificar_caracterizacao :
  forall (candidatos : list texto) (e : Estado),
    bem_formado (banco e) ->
    let cs := contatos_da_resposta (verificar candidatos e) in
    verificar candidatos e = mkResposta 200 (CDuplicatas cs) /\
    NoDup (map ID cs) /\
    (forall j, In j cs -> vem_do_banco (banco e) j) /\
    (forall c, In c (contatos (banco e)) ->
       (In (c_ID c) (map ID cs) <->
        exists t tel,
          In t (telefones (banco e)) /\ t_IDCONTATO t = c_ID c /\
          In tel candidatos /\ normalizarNumero tel <> [] /\
          numero_sql (t_NUMERO t) = normalizarNumero tel)) /\
    (forall t tel,
        In t (telefones (banco e)) -> formato_usual (t_NUMERO t) ->
        In tel candidatos -> normalizarNumero tel <> [] ->
        normalizarNumero tel = normalizarNumero (t_NUMERO t) ->
        In (t_IDCONTATO t) (map ID cs)).
Proof.
  intros candidatos e Hbf; simpl.
  rewrite verificar_eq; unfold contatos_da_resposta; simpl.
  set (ns := numeros_candidatos candidatos).
  set (S := SELECT INNER_JOIN (onde_verificar ns) (banco e)).
  set (cs := if (length candidatos =? 0) || (length ns =? 0) then []
             else map contato_da_linha S).
  assert (Hcs : forall i, In i (map ID cs) <-> In i (map l_ID S)).
  { intros i; unfold cs.
    destruct ((length candidatos =? 0) || (length ns =? 0)) eqn:E;
      [|rewrite ids_das_linhas; tauto].
    simpl; split; [tauto|].
    unfold S; rewrite SELECT_ids, in_map_iff.
    intros [c [_ Hc]]; apply filter_In in Hc; destruct Hc as [_ Hs].
    rewrite selecionado_verificar, existsb_exists in Hs.
    destruct Hs as [t [_ Ht]]; apply telefone_duplicado_In in Ht.
    fold ns in Ht; apply orb_true_iff in E; destruct E as [E|E].
    - apply length_zero_nil in E.
      apply numeros_candidatos_In in Ht; destruct Ht as [tel [Hin _]].
      rewrite E in Hin; destruct Hin.
    - apply length_zero_nil in E; rewrite E in Ht; destruct Ht. }
  assert (Hmem : forall c, In c (contatos (banco e)) ->
            (In (c_ID c) (map ID cs) <->
             exists t tel,
               In t (telefones (banco e)) /\ t_IDCONTATO t = c_ID c /\
               In tel candidatos /\ normalizarNumero tel <> [] /\
               numero_sql (t_NUMERO t) = normalizarNumero tel)).
  { intros c Hc; rewrite Hcs; unfold S.
    rewrite (@SELECT_tem_id _ _ _ _ (bf_contatos Hbf) Hc).
    rewrite selecionado_verificar, existsb_telefones_de; split.
    - intros [t [H1 [H2 H3]]]; apply telefone_duplicado_In in H3.
      apply numeros_candidatos_In in H3; destruct H3 as [tel [H4 [H5 H6]]].
      exists t, tel; repeat split; auto; congruence.
    - intros [t [tel [H1 [H2 [H3 [H4 H5]]]]]]; exists t; repeat split; auto.
      apply telefone_duplicado_In, numeros_candidatos_In.
      exists tel; repeat split; auto; congruence. }
  split; [reflexivity|]; split; [|split; [|split]].
  - unfold cs; destruct ((length candidatos =? 0) || (length ns =? 0));
      [constructor|].
    rewrite ids_das_linhas; apply SELECT_NoDup, Hbf.
  - unfold cs; destruct ((length candidatos =? 0) || (length ns =? 0));
      [intros j []|].
    intros j Hj; apply in_map_iff in Hj; destruct Hj as [row [<- Hr]].
    eapply linha_vem_do_banco; exact Hr.
  - exact Hmem.
  - intros t tel Ht Hf Hin Hne E.
    destruct (bf_integridade Hbf t Ht) as [c [Hc Ec]].
    rewrite <- Ec; apply Hmem; auto.
    exists t, tel; repeat split; auto.
    rewrite numero_sql_formato_usual; auto.
Qed.


(** After a contact is created with a phone written with digits,
    parentheses, hyphens and spaces, of at most 200 code units, the duplicate
    check of any string with the same digits returns the new contact. *)
Lemma criar_depois_verificar (p : Pedido) (e : Estado) (tel variante : texto) :
  bem_formado (banco e) ->
  pedido_valido p ->
  In tel (telefones_pedido p) -> validarTelefone tel = true ->
  formato_usual tel -> length tel <= 200 ->
  normalizarNumero variante = normalizarNumero tel ->
  exists id,
    snd (criar p e) = mkResposta 201 (CId id) /\
    In id (map ID (contatos_da_resposta (verificar [variante] (fst (criar p e))))).
Proof.
  intros Hbf Hp Hin Hval Hfmt Hlen Hvar.
  destruct (criar_sucesso e Hp) as [Hr [Hcs [_ [novos [Hts [Hm Hall]]]]]].
  eexists; split; [exact Hr|].
  assert (Hs : In (sanitizar tel) (map t_NUMERO novos)).
  { rewrite Hm; apply in_map, filter_In; auto. }
  apply in_map_iff in Hs; destruct Hs as [t [Et Ht]].
  rewrite Forall_forall in Hall; rewrite <- (Hall t Ht).
  refine (proj2 (proj2 (proj2 (proj2
    (@verificar_caracterizacao [variante] (fst (criar p e))
       (criar_bem_formado p e Hbf))))) t variante _ _ (or_introl eq_refl) _ _).
  - rewrite Hts; apply in_app_iff; auto.
  - rewrite Et; apply sanitizar_formato_usual; auto.
  - rewrite Hvar; unfold validarTelefone in Hval; simpl in Hval.
    destruct (normalizarNumero tel); [discriminate | discriminate].
  - rewrite Et, sanitizar_digitos; auto.
Qed.

(** C7, as stated, fails: the stored numbers are compared in their
    [SQL_NUMERO_NORMALIZADO] form, not in their digit-only form.  After the
    contact with the phone [11.98765.4321] is created, the duplicate check
    of [11987654321], the same digits, returns no contact. *)
Lemma C7_counterexample :
  status (snd (criar Exemplos.pedido_pontos inicial)) = 201 /\
  numeros_de (banco Exemplos.estado_pontos) 1 = [txt "11.98765.4321"] /\
  normalizarNumero (txt "11.98765.4321") = normalizarNumero (txt "11987654321") /\
  verificar [txt "11987654321"] Exemplos.estado_pontos
  = mkResposta 200 (CDuplicatas []).
Proof. vm_compute; repeat split; reflexivity. Qed.

(** C7, amended.  The duplicate check answers 200 with the contacts of the
    store, each once, that own a phone whose stored string without
    parentheses, hyphens and spaces equals the digit-only form of a
    candidate that has a digit, and with no other contact.  So a phone
    stored with digits, parentheses, hyphens and spaces only is found by
    every candidate with the same digits; in particular, after a contact is
    created with such a phone of at most 200 code units, the check of any
    string with the same digits returns that contact. *)
Theorem C7_verificar_duplicatas :
  (forall (candidatos : list texto) (e : Estado),
    bem_formado (banco e) ->
    let cs := contatos_da_resposta (verificar candidatos e) in
    verificar candidatos e = mkResposta 200 (CDuplicatas cs) /\
    NoDup (map ID cs) /\
    (forall j, In j cs -> vem_do_banco (banco e) j) /\
    (forall c, In c (contatos (banco e)) ->
       (In (c_ID c) (map ID cs) <->
        exists t tel,
          In t (telefones (banco e)) /\ t_IDCONTATO t = c_ID c /\
          In tel candidatos /\ normalizarNumero tel <> [] /\
          numero_sql (t_NUMERO t) = normalizarNumero tel)) /\
    (forall t tel,
        In t (telefones (banco e)) -> formato_usual (t_NUMERO t) ->
        In tel candidatos -> normalizarNumero tel <> [] ->
        normalizarNumero tel = normalizarNumero (t_NUMERO t) ->
        In (t_IDCONTATO t) (map ID cs))) /\
  (forall (p : Pedido) (e : Estado) (tel variante : texto),
      bem_formado (banco e) ->
      pedido_valido p ->
      In tel (telefones_pedido p) -> validarTelefone tel = true ->
      formato_usual tel -> length tel <= 200 ->
      normalizarNumero variante = normalizarNumero tel ->
      exists id,
        snd (criar p e) = mkResposta 201 (CId id) /\
        In id (map ID (contatos_da_resposta
                         (verificar [variante] (fst (criar p e)))))).
Proof.
  split.
  - exact verificar_caracterizacao.
  - intros p e tel variante; apply criar_depois_verificar.
Qed.

Lemma C7_verificar_duplicatas_witness :
  In 1%Z (map ID (contatos_da_resposta
                    (verificar [txt "11 98765 4321"] Exemplos.estado_ana))).
Proof.
  refine (proj2 (proj2 (proj2 (proj2
    (proj1 C7_verificar_duplicatas [txt "11 98765 4321"] Exemplos.estado_ana
       (alcancavel_bem_formado
          (alc_passo (OpCriar Exemplos.pedido_ana) alc_inicial))))))
    (mkTelefone 1 1 (txt "(11) 98765-4321")) (txt "11 98765 4321")
    (or_introl eq_refl) _ (or_introl eq_refl) _ eq_refl).
  - simpl; repeat apply Forall_cons; try apply Forall_nil; vm_compute; auto 8.
  - vm_compute; discriminate.
Defined.

(** ** The list of all contacts *)

Section Listagem.

Lemma SELECT_todos (b : Banco) :
  SELECT LEFT_JOIN (fun _ _ => Some true) b
  = map (fun c => mkLinha (c_ID c) (c_NOME c) (c_IDADE c)
                    (GROUP_CONCAT (txt "||")
                       (map Some (numeros_de b (c_ID c)))))
        (contatos b).
Proof.
  rewrite SELECT_map_filter.
  assert (Ha : forall c, linhas_aceitas LEFT_JOIN (fun _ _ => Some true) b c
                         = LEFT_JOIN b c).
  { intros c; unfold linhas_aceitas; simpl; apply (filter_constante true). }
  rewrite filter_todos.
  - apply map_ext; intros c; unfold linha_de.
    rewrite Ha, GROUP_CONCAT_LEFT_JOIN; reflexivity.
  - rewrite Forall_forall; intros c _; unfold selecionado; rewrite Ha.
    pose proof (LEFT_JOIN_nao_vazio b c); destruct (LEFT_JOIN b c); tauto.
Qed.

(** The list has every contact of the store once, in the order of the
    names, with the phone array the handler makes of its stored numbers. *)
Lemma listar_contatos (e : Estado) :
  let cs := contatos_da_resposta (listar e) in
  listar e = mkResposta 200 (CLista cs) /\
  Permutation (map ID cs) (map c_ID (contatos (banco e))) /\
  ordenada_por_nome cs /\
  (forall j, In j cs -> vem_do_banco (banco e) j) /\
  (forall c, In c (contatos (banco e)) ->
     In (mkContatoJson (c_ID c) (c_NOME c) (c_IDADE c)
           (telefones_da_linha
              (GROUP_CONCAT (txt "||")
                 (map Some (numeros_de (banco e) (c_ID c)))))) cs).
Proof.
  unfold listar, contatos_da_resposta, sql_listar; simpl.
  split; [reflexivity|]; split; [|split; [|split]].
  - rewrite ids_das_linhas.
    etransitivity; [apply ids_ordenados|].
    rewrite SELECT_todos, map_map; simpl; apply Permutation_refl.
  - apply contatos_ordenados, ORDER_BY_NOME_sorted.
  - intros j Hj; apply in_map_iff in Hj; destruct Hj as [row [<- Hr]].
    apply (proj1 (ORDER_BY_NOME_In _ _)) in Hr.
    eapply linha_vem_do_banco; exact Hr.
  - intros c Hc.
    apply in_map_iff; eexists; split;
      [|apply ORDER_BY_NOME_In; rewrite SELECT_todos; apply in_map; exact Hc].
    reflexivity.
Qed.

(** For stored numbers without a vertical bar the array is the list of
    the stored numbers. *)
Lemma listar_telefones_sem_barra (e : Estado) (c : Contato) :
  In c (contatos (banco e)) ->
  Forall (fun s => sem_barra s /\ s <> []) (numeros_de (banco e) (c_ID c)) ->
  In (mkContatoJson (c_ID c) (c_NOME c) (c_IDADE c)
                    (numeros_de (banco e) (c_ID c)))
     (contatos_da_resposta (listar e)).
Proof.
  intros Hc Hs.
  pose proof (proj2 (proj2 (proj2 (proj2 (listar_contatos e)))) c Hc) as H.
  rewrite telefones_da_linha_sem_barra in H; auto.
Qed.

(** The search answers in the order of the names, whatever the term. *)
Lemma pesquisar_ordenada (termo : texto) (e : Estado) :
  ordenada_por_nome (contatos_da_resposta (pesquisar termo e)).
Proof.
  unfold pesquisar; destruct (negb _); simpl; [constructor|].
  apply contatos_ordenados, ORDER_BY_NOME_sorted.
Qed.

(** A term without a digit has the empty normalized form, which every
    stored number contains: the search then returns every contact that
    has a phone. *)
Lemma pesquisar_termo_sem_digitos (termo : texto) (e : Estado) (c : Contato) :
  bem_formado (banco e) ->
  JS.trim termo <> [] -> normalizarNumero termo = [] ->
  In c (contatos (banco e)) -> telefones_de (banco e) (c_ID c) <> [] ->
  In (c_ID c) (map ID (contatos_da_resposta (pesquisar termo e))).
Proof.
  intros Hbf Hnb Hn Hc Ht.
  rewrite (@pesquisar_eq termo e Hnb); unfold contatos_da_resposta.
  cbn [corpo]; rewrite ids_das_linhas.
  eapply Permutation_in; [apply Permutation_sym, ids_ordenados|].
  apply (@SELECT_tem_id _ _ _ _ (bf_contatos Hbf) Hc).
  rewrite selecionado_pesquisa; apply orb_true_iff; right.
  destruct (telefones_de (banco e) (c_ID c)) as [|t ts]; [tauto|].
  simpl; apply orb_true_iff; left.
  unfold telefone_casa; rewrite Hn.
  apply like_pct; exists [], (numero_sql (t_NUMERO t)); split; auto.
  apply like_pct_final.
Qed.

(** The path of the search is taken by the route of get-by-id, which is
    registered before it. *)
Lemma rota_pesquisar_encoberta :
  Rotas.despachar Rotas.GET ["api"; "contatos"; "pesquisar"]%string
  = Some Rotas.HObter.
Proof. reflexivity. Qed.

Lemma sanitizar_nao_vazio (tel : texto) :
  validarTelefone tel = true -> sanitizar tel <> [].
Proof.
  unfold validarTelefone; simpl; intros H.
  assert (Hd : filter JS.eh_digito (JS.trim tel) <> []).
  { rewrite trim_digitos, <- normalizarNumero_digitos.
    destruct (normalizarNumero tel); [discriminate H | discriminate]. }
  unfold sanitizar, JS.substring0.
  destruct (JS.trim tel); [tauto | discriminate].
Qed.

(** No stored number of a reachable state is empty. *)
Lemma alcancavel_numeros_nao_vazios (e : Estado) :
  alcancavel e -> forall t, In t (telefones (banco e)) -> t_NUMERO t <> [].
Proof.
  induction 1 as [|e o _ IH]; [intros t []|].
  intros t Ht; destruct o as [p|id p|agora id]; simpl in Ht.
  - destruct (@criar_telefones p e t Ht) as [H|[tel [_ [Hv ->]]]]; auto.
    apply sanitizar_nao_vazio; auto.
  - destruct (@atualizar_telefones id p e t Ht) as [H|[tel [_ [Hv ->]]]]; auto.
    apply sanitizar_nao_vazio; auto.
  - apply IH; revert Ht; unfold excluir, excluir_efeitos.
    destruct (sql_buscar id (banco e)); simpl; auto.
    unfold delete_contato; destruct (existe_contato id (banco e)); auto.
    simpl; intros Ht; apply filter_In in Ht; tauto.
Qed.

End Listagem.

(** C9 fails on a phone that contains [||], the separator the handlers give
    to GROUP_CONCAT and split the concatenation at: POST accepts the phone
    [1198765||4321], which has eleven digits, and stores it as one number,
    and the list returns the contact with the two strings [1198765] and
    [4321] in its phone array. *)
Theorem C9_listar_telefone_com_separador :
  status (snd (criar Exemplos.pedido_barras inicial)) = 201 /\
  numeros_de (banco Exemplos.estado_barras) 1 = [txt "1198765||4321"] /\
  listar Exemplos.estado_barras
  = mkResposta 200
      (CLista [mkContatoJson 1 (txt "Caio") None
                             [txt "1198765"; txt "4321"]]).
Proof. vm_compute; repeat split; reflexivity. Qed.

(** * Further properties of the server *)

Import Cliente Exportacao Dados.

(** ** Validation and sanitization *)

Section ValidacaoDeCampos.

Lemma trimStart_inicio (s : texto) : inicio_limpo (JS.trimStart s).
Proof.
  induction s as [|c s IH]; simpl; auto.
  destruct (JS.eh_branco c) eqn:E; simpl; auto.
Qed.

Lemma trimStart_fixo (s : texto) : inicio_limpo s -> JS.trimStart s = s.
Proof. destruct s as [|c s]; simpl; auto; intros ->; reflexivity. Qed.

Lemma inicio_limpo_app (s r : texto) :
  s <> [] -> (inicio_limpo (s ++ r) <-> inicio_limpo s).
Proof. destruct s; [tauto | simpl; tauto]. Qed.

Lemma trimStart_fim (s : texto) : fim_limpo s -> fim_limpo (JS.trimStart s).
Proof.
  unfold fim_limpo; induction s as [|c s IH]; simpl; auto.
  destruct (JS.eh_branco c) eqn:E; simpl; auto.
  intros H; apply IH.
  destruct s as [|d s]; [exact I|].
  assert (Hne : rev (d :: s) <> []).
  { simpl; intros Hn; apply app_eq_nil in Hn; destruct Hn; discriminate. }
  apply (proj1 (@inicio_limpo_app _ [c] Hne)); exact H.
Qed.

Lemma trim_inicio (s : texto) : inicio_limpo (JS.trim s).
Proof.
  unfold JS.trim, JS.trimEnd.
  apply (trimStart_fim (rev (JS.trimStart s))).
  unfold fim_limpo; rewrite rev_involutive; apply trimStart_inicio.
Qed.

Lemma trim_fim (s : texto) : fim_limpo (JS.trim s).
Proof.
  unfold fim_limpo, JS.trim, JS.trimEnd; rewrite rev_involutive.
  apply trimStart_inicio.
Qed.

Lemma trim_fixo (s : texto) :
  inicio_limpo s -> fim_limpo s -> JS.trim s = s.
Proof.
  intros H1 H2; unfold JS.trim, JS.trimEnd.
  rewrite (trimStart_fixo _ H1), (trimStart_fixo _ H2).
  apply rev_involutive.
Qed.



Lemma digitos_validos (s : texto) :
  validarTelefone s = true <->
  length (filter JS.eh_digito s) = 10 \/ length (filter JS.eh_digito s) = 11.
Proof.
  unfold validarTelefone; cbv zeta; rewrite normalizarNumero_digitos.
  generalize (length (filter JS.eh_digito s)); intros n.
  destruct (Nat.leb_spec 10 n) as [Ha|Ha], (Nat.leb_spec n 11) as [Hb|Hb];
    simpl; split; intros Hx; try discriminate; try reflexivity; lia.
Qed.

Lemma sanitizar_comprimento (s : texto) : length (sanitizar s) <= 200.
Proof.
  unfold sanitizar, JS.substring0; rewrite length_firstn; lia.
Qed.

Lemma inicio_limpo_firstn (n : nat) (s : texto) :
  inicio_limpo s -> inicio_limpo (firstn n s).
Proof. destruct n, s; simpl; auto. Qed.

Lemma sanitizar_inicio (s : texto) : inicio_limpo (sanitizar s).
Proof. apply inicio_limpo_firstn, trim_inicio. Qed.

Lemma sanitizar_curto (s : texto) :
  length s <= 200 -> sanitizar s = JS.trim s.
Proof.
  intros H; unfold sanitizar, JS.substring0.
  apply firstn_all2; pose proof (trim_length s); lia.
Qed.

End ValidacaoDeCampos.


(** X1.  Whether [validarTelefone] accepts a phone depends on its digits
    alone: a string is accepted exactly when it has 10 or 11 ASCII digits,
    whatever else it contains, and it is accepted exactly when its
    normalized form is. *)
Theorem X1_validarTelefone_conta_digitos :
  forall s : texto,
    (validarTelefone s = true <->
     length (filter JS.eh_digito s) = 10 \/
     length (filter JS.eh_digito s) = 11) /\
    validarTelefone (normalizarNumero s) = validarTelefone s.
Proof.
  intros s; split; [apply digitos_validos|].
  unfold validarTelefone; simpl.
  rewrite !normalizarNumero_digitos, filter_idem; reflexivity.
Qed.


(** X3.  [sanitizar] returns at most 200 code units that do not begin with
    white space.  On a string of at most 200 code units it is the trimmed
    string, which does not end with white space either, and sanitizing
    again changes nothing. *)
Theorem X3_sanitizar_limites :
  forall s : texto,
    length (sanitizar s) <= 200 /\
    inicio_limpo (sanitizar s) /\
    (length s <= 200 ->
     sanitizar s = JS.trim s /\ fim_limpo (sanitizar s) /\
     sanitizar (sanitizar s) = sanitizar s).
Proof.
  intros s; split; [apply sanitizar_comprimento|].
  split; [apply sanitizar_inicio|].
  intros H; rewrite (sanitizar_curto _ H).
  split; [reflexivity|]; split; [apply trim_fim|].
  rewrite sanitizar_curto by (pose proof (trim_length s); lia).
  apply trim_fixo; [apply trim_inicio | apply trim_fim].
Qed.

(** ** What a request leaves in the tables *)

Section Efeitos.

Lemma pedido_valido_dec (p : Pedido) : pedido_valido p \/ ~ pedido_valido p.
Proof.
  unfold pedido_valido.
  destruct (validarContato (nome p) (idade p)) eqn:E1;
    destruct (filter validarTelefone (telefones_pedido p)) eqn:E2;
    try (right; intros [H1 H2]; congruence).
  left; split; [reflexivity | discriminate].
Qed.

(** A request that fails the validation changes nothing. *)
Lemma criar_invalido p e : ~ pedido_valido p -> fst (criar p e) = e.
Proof.
  intros H; rewrite criar_eq.
  destruct (validarContato (nome p) (idade p)) eqn:E1; simpl; auto.
  destruct (length (telefones_pedido p) =? 0); auto.
  destruct (filter validarTelefone (telefones_pedido p)) eqn:E2; simpl; auto.
  exfalso; apply H; split; congruence.
Qed.

Lemma atualizar_invalido id p e :
  ~ pedido_valido p -> fst (atualizar id p e) = e.
Proof.
  intros H; unfold atualizar.
  destruct (validarContato (nome p) (idade p)) eqn:E1; simpl; auto.
  destruct (length (telefones_pedido p) =? 0); auto.
  destruct (filter validarTelefone (telefones_pedido p)) eqn:E2; simpl; auto.
  exfalso; apply H; split; congruence.
Qed.

Lemma sql_buscar_None id b :
  sql_buscar id b = None <-> existe_contato id b = false.
Proof.
  split; [|apply sql_buscar_ausente].
  unfold sql_buscar; rewrite SELECT_map_filter.
  erewrite filter_ext; [|intros d; apply selecionado_por_id].
  intros H; apply not_true_is_false; intros Hex.
  apply existe_contato_In in Hex; destruct Hex as [c [Hc E]].
  assert (Hin : In c (filter (fun d => (c_ID d =? id)%Z) (contatos b)))
    by (apply filter_In; split; auto; apply Z.eqb_eq; auto).
  destruct (filter (fun d => (c_ID d =? id)%Z) (contatos b));
    [destruct Hin | discriminate H].
Qed.

Lemma delete_contato_ausente id b :
  existe_contato id b = false -> delete_contato id b = b.
Proof. intros H; unfold delete_contato; rewrite H; reflexivity. Qed.

Lemma excluir_banco agora id e :
  banco (fst (excluir agora id e)) = delete_contato id (banco e).
Proof.
  unfold excluir, excluir_efeitos.
  destruct (sql_buscar id (banco e)) eqn:E; simpl; auto.
  apply sql_buscar_None in E; rewrite delete_contato_ausente; auto.
Qed.

Lemma delete_contato_linhas id b :
  contatos (delete_contato id b)
  = filter (fun c => negb (c_ID c =? id)%Z) (contatos b) /\
  (integridade b ->
   telefones (delete_contato id b)
   = filter (fun t => negb (t_IDCONTATO t =? id)%Z) (telefones b)) /\
  seq_contato (delete_contato id b) = seq_contato b.
Proof.
  unfold delete_contato; destruct (existe_contato id b) eqn:E; simpl.
  - repeat split; auto.
  - split; [|split; auto].
    + symmetry; apply filter_todos, Forall_forall; intros c Hc.
      apply negb_true_iff, Z.eqb_neq; intros Hid.
      assert (existe_contato id b = true)
        by (apply existe_contato_In; eauto).
      congruence.
    + intros Hint; symmetry; apply filter_todos, Forall_forall; intros t Ht.
      apply negb_true_iff, Z.eqb_neq; intros Hid.
      destruct (Hint t Ht) as [c [Hc Ec]].
      assert (existe_contato id b = true)
        by (apply existe_contato_In; exists c; split; congruence).
      congruence.
Qed.

Lemma filter_outro_id (i j : Z) (ts : list Telefone) :
  i <> j ->
  filter (fun t => (t_IDCONTATO t =? i)%Z)
         (filter (fun t => negb (t_IDCONTATO t =? j)%Z) ts)
  = filter (fun t => (t_IDCONTATO t =? i)%Z) ts.
Proof.
  intros H; induction ts as [|t ts IH]; simpl; auto.
  destruct (t_IDCONTATO t =? j)%Z eqn:Ej; simpl.
  - apply Z.eqb_eq in Ej.
    destruct (t_IDCONTATO t =? i)%Z eqn:Ei; auto.
    apply Z.eqb_eq in Ei; congruence.
  - rewrite IH; reflexivity.
Qed.

Lemma filter_do_id (i : Z) (ts : list Telefone) :
  Forall (fun t => t_IDCONTATO t = i) ts ->
  filter (fun t => (t_IDCONTATO t =? i)%Z) ts = ts.
Proof.
  intros H; apply filter_todos; eapply Forall_impl; [|exact H].
  simpl; intros t ->; apply Z.eqb_refl.
Qed.

Lemma filter_de_outro (i j : Z) (ts : list Telefone) :
  i <> j -> Forall (fun t => t_IDCONTATO t = j) ts ->
  filter (fun t => (t_IDCONTATO t =? i)%Z) ts = [].
Proof.
  intros Hij H; induction H as [|t ts Ht _ IH]; simpl; auto.
  rewrite IH; destruct (t_IDCONTATO t =? i)%Z eqn:E; auto.
  apply Z.eqb_eq in E; congruence.
Qed.

(** The numbers of a stored contact after a valid POST: unchanged; those
    of the new contact: the sanitized valid phones. *)
Lemma criar_numeros p e :
  bem_formado (banco e) -> pedido_valido p ->
  let cid := proximo_id (seq_contato (banco e))
                        (map c_ID (contatos (banco e))) in
  (forall id, id <> cid ->
     telefones_de (banco (fst (criar p e))) id = telefones_de (banco e) id) /\
  numeros_de (banco (fst (criar p e))) cid
  = map sanitizar (filter validarTelefone (telefones_pedido p)) /\
  ~ In cid (map c_ID (contatos (banco e))).
Proof.
  intros Hbf Hp; simpl.
  destruct (criar_sucesso e Hp) as [_ [_ [_ [novos [Hts [Hm Hall]]]]]].
  set (cid := proximo_id _ _) in *.
  assert (Hnovo : ~ In cid (map c_ID (contatos (banco e)))).
  { intros H.
    pose proof (proj2 (proximo_id_novo (seq_contato (banco e))
                         (map c_ID (contatos (banco e)))) cid H).
    unfold cid in *; lia. }
  split; [|split]; auto.
  - intros id Hid; unfold telefones_de; rewrite Hts, filter_app.
    rewrite (filter_de_outro Hid Hall), app_nil_r; reflexivity.
  - unfold numeros_de, telefones_de; rewrite Hts, filter_app.
    rewrite (filter_do_id Hall).
    assert (E : filter (fun t => (t_IDCONTATO t =? cid)%Z)
                       (telefones (banco e)) = []).
    { destruct (filter _ (telefones (banco e))) as [|t ts] eqn:E; auto.
      assert (Ht : In t (t :: ts)) by (left; reflexivity).
      rewrite <- E in Ht; apply filter_In in Ht; destruct Ht as [Ht Hid].
      apply Z.eqb_eq in Hid.
      destruct (bf_integridade Hbf t Ht) as [c [Hc Ec]].
      exfalso; apply Hnovo; rewrite <- Hid, <- Ec; apply in_map; auto. }
    rewrite E; exact Hm.
Qed.

Lemma seq_contato_cresce o e :
  (seq_contato (banco e) <= seq_contato (banco (fst (executar o e))))%Z.
Proof.
  destruct o as [p|id p|agora id]; simpl.
  - destruct (pedido_valido_dec p) as [Hp|Hp];
      [|rewrite criar_invalido; auto; lia].
    rewrite criar_eq; destruct Hp as [Hv Hf]; rewrite Hv; simpl.
    destruct (filter_nao_vazio _ _ Hf) as [E1 E2]; rewrite E1, E2.
    unfold insert_contato.
    match goal with
    | |- context [inserir_telefones ?i ?l ?b] =>
        pose proof (inserir_telefones_linhas i l b) as H;
        destruct (inserir_telefones i l b) as [b2 ok]
    end; simpl in *.
    destruct H as [_ [Hs _]]; rewrite Hs.
    pose proof (proj1 (proximo_id_novo (seq_contato (banco e))
                         (map c_ID (contatos (banco e))))); lia.
  - destruct (pedido_valido_dec p) as [Hp|Hp];
      [|rewrite atualizar_invalido; auto; lia].
    unfold atualizar; destruct Hp as [Hv Hf]; rewrite Hv; simpl.
    destruct (filter_nao_vazio _ _ Hf) as [E1 E2]; rewrite E1, E2.
    rewrite existe_contato_changes.
    destruct (existe_contato id (banco e)); simpl; [|lia].
    match goal with
    | |- context [inserir_telefones ?i ?l ?b] =>
        pose proof (inserir_telefones_linhas i l b) as H;
        destruct (inserir_telefones i l b) as [b2 ok]
    end; simpl in *.
    destruct H as [_ [Hs _]]; rewrite Hs; lia.
  - rewrite excluir_banco.
    rewrite (proj2 (proj2 (delete_contato_linhas id (banco e)))); lia.
Qed.

Lemma executar_todas_bem_formado os :
  forall e, bem_formado (banco e) ->
            bem_formado (banco (executar_todas os e)) /\
            (seq_contato (banco e)
             <= seq_contato (banco (executar_todas os e)))%Z.
Proof.
  induction os as [|o os IH]; intros e H; simpl; [split; auto; lia|].
  destruct (IH _ (executar_bem_formado o e H)) as [H1 H2].
  split; auto.
  pose proof (seq_contato_cresce o e); lia.
Qed.

End Efeitos.

(** ** Invariants of the stored data *)

Section DadosArmazenados.







Lemma filter_app_nao_vazio {A} (f : A -> bool) (l r : list A) :
  filter f l <> [] \/ filter f r <> [] -> filter f (l ++ r) <> [].
Proof.
  rewrite filter_app; intros [H|H] E; apply app_eq_nil in E; tauto.
Qed.

Lemma executar_com_telefone o e :
  bem_formado (banco e) -> com_telefone (banco e) ->
  com_telefone (banco (fst (executar o e))).
Proof.
  intros Hbf Hct; destruct o as [p|id p|agora id]; simpl.
  - destruct (pedido_valido_dec p) as [Hp|Hp];
      [|rewrite criar_invalido; auto].
    destruct (criar_sucesso e Hp) as [_ [Hcs [_ [novos [Hts [Hm Hall]]]]]].
    intros c Hc; unfold telefones_de; rewrite Hts.
    apply filter_app_nao_vazio.
    rewrite Hcs in Hc; apply in_app_iff in Hc; destruct Hc as [Hc|[<-|[]]].
    + left; apply Hct; auto.
    + right; simpl; rewrite (filter_do_id Hall).
      intros ->; simpl in Hm; symmetry in Hm; apply map_eq_nil in Hm.
      destruct Hp; tauto.
  - destruct (pedido_valido_dec p) as [Hp|Hp];
      [|rewrite atualizar_invalido; auto].
    destruct (existe_contato id (banco e)) eqn:Hex;
      [|rewrite (proj2 (atualizar_ausente id e Hp Hex)); auto].
    destruct (atualizar_existente id e Hp Hex)
      as [_ [Hcs [_ [novos [Hts [Hm Hall]]]]]].
    assert (Hall' : Forall (fun t => t_IDCONTATO t = id) novos)
      by (eapply Forall_impl; [|exact Hall]; simpl; tauto).
    intros c Hc; unfold telefones_de; rewrite Hts.
    apply filter_app_nao_vazio.
    rewrite Hcs in Hc; apply in_map_iff in Hc; destruct Hc as [d [<- Hd]].
    destruct (c_ID d =? id)%Z eqn:E; simpl.
    + right; apply Z.eqb_eq in E; rewrite E, (filter_do_id Hall').
      intros ->; simpl in Hm; symmetry in Hm; apply map_eq_nil in Hm.
      destruct Hp; tauto.
    + left; apply Z.eqb_neq in E; rewrite (filter_outro_id _ E).
      apply Hct; auto.
  - rewrite excluir_banco.
    destruct (delete_contato_linhas id (banco e)) as [Hcs [Hts _]].
    intros c Hc; rewrite Hcs in Hc; apply filter_In in Hc.
    destruct Hc as [Hc Hid]; apply negb_true_iff, Z.eqb_neq in Hid.
    unfold telefones_de; rewrite (Hts (bf_integridade Hbf)).
    rewrite (filter_outro_id _ Hid); apply Hct; auto.
Qed.

Lemma alcancavel_com_telefone e : alcancavel e -> com_telefone (banco e).
Proof.
  induction 1 as [|e o He IH].
  - intros c [].
  - apply executar_com_telefone; auto; apply alcancavel_bem_formado; auto.
Qed.

Lemma split_de_nao_vazio sep (s : texto) : forall k, JS.split_de sep k s <> [].
Proof.
  induction s as [|c s IH]; intros k; simpl; [discriminate|].
  destruct k; [|apply IH].
  destruct (JS.prefixo sep (c :: s)); [discriminate|].
  destruct (JS.split_de sep 0 s); discriminate.
Qed.

Lemma join_nao_vazio sep (p : texto) (ps : list texto) :
  p <> [] -> JS.join sep (p :: ps) <> [].
Proof.
  intros H; destruct ps; simpl; auto.
  intros E; apply app_eq_nil in E; tauto.
Qed.

Lemma telefones_da_linha_nao_vazio (nums : list texto) :
  nums <> [] -> Forall (fun s => s <> []) nums ->
  telefones_da_linha (GROUP_CONCAT (txt "||") (map Some nums)) <> [].
Proof.
  intros Hne Hall; unfold GROUP_CONCAT.
  assert (E : flat_map (fun x : option texto =>
                          match x with Some s => [s] | None => [] end)
                       (map Some nums) = nums).
  { clear; induction nums as [|t ts IH]; simpl; auto; rewrite IH; auto. }
  rewrite E; destruct nums as [|p ps]; [tauto|].
  inversion Hall as [|? ? Hp _]; subst.
  pose proof (join_nao_vazio (txt "||") ps Hp) as Hj.
  unfold telefones_da_linha.
  destruct (JS.join (txt "||") (p :: ps)) eqn:Ej; [tauto|].
  cbn [JS.verdadeiro]; apply split_de_nao_vazio.
Qed.

End DadosArmazenados.



(** X5.  In every state the server reaches, every contact owns at least one
    phone row, and no contact of the list comes with an empty phone array. *)
Theorem X5_todo_contato_tem_telefone :
  forall e : Estado,
    alcancavel e ->
    com_telefone (banco e) /\
    forall j, In j (contatos_da_resposta (listar e)) -> TELEFONES j <> [].
Proof.
  intros e He; pose proof (alcancavel_com_telefone He) as Hct.
  split; auto.
  unfold listar, contatos_da_resposta, sql_listar; simpl.
  intros j Hj; apply in_map_iff in Hj; destruct Hj as [row [<- Hr]].
  apply (proj1 (ORDER_BY_NOME_In _ _)) in Hr.
  rewrite SELECT_todos in Hr; apply in_map_iff in Hr.
  destruct Hr as [c [<- Hc]]; simpl.
  apply telefones_da_linha_nao_vazio.
  - unfold numeros_de; intros E; apply map_eq_nil in E.
    apply (Hct c Hc); exact E.
  - unfold numeros_de; rewrite Forall_forall; intros s Hs.
    apply in_map_iff in Hs; destruct Hs as [t [<- Ht]].
    apply filter_In in Ht.
    apply (alcancavel_numeros_nao_vazios He t); tauto.
Qed.

Lemma X5_todo_contato_tem_telefone_witness :
  com_telefone (banco Exemplos.estado_ana) /\
  forall j, In j (contatos_da_resposta (listar Exemplos.estado_ana)) ->
            TELEFONES j <> [].
Proof.
  apply (@X5_todo_contato_tem_telefone Exemplos.estado_ana).
  exact (alc_passo (OpCriar Exemplos.pedido_ana) alc_inicial).
Defined.

(** X6.  The ID of a contact is never given out again: whatever requests
    are handled in between, deletions included, a later valid POST answers
    201 with an ID greater than the ID of every contact the store held. *)
Theorem X6_ids_nunca_reutilizados :
  forall (os : list Operacao) (p : Pedido) (e : Estado),
    bem_formado (banco e) ->
    pedido_valido p ->
    exists id,
      snd (criar p (executar_todas os e)) = mkResposta 201 (CId id) /\
      forall c, In c (contatos (banco e)) -> (c_ID c < id)%Z.
Proof.
  intros os p e Hbf Hp.
  destruct (executar_todas_bem_formado os e Hbf) as [Hbf' Hseq].
  destruct (criar_sucesso (executar_todas os e) Hp) as [Hr _].
  eexists; split; [exact Hr|].
  intros c Hc; pose proof (bf_seq_contato Hbf c Hc).
  pose proof (proj1 (proximo_id_novo
                       (seq_contato (banco (executar_todas os e)))
                       (map c_ID (contatos (banco (executar_todas os e)))))).
  lia.
Qed.

Lemma X6_ids_nunca_reutilizados_witness :
  exists id,
    snd (criar Exemplos.pedido_ana
               (executar_todas [OpExcluir (txt "2025") 1] Exemplos.estado_ana))
    = mkResposta 201 (CId id) /\
    forall c, In c (contatos (banco Exemplos.estado_ana)) -> (c_ID c < id)%Z.
Proof.
  apply (@X6_ids_nunca_reutilizados [OpExcluir (txt "2025") 1]
           Exemplos.pedido_ana Exemplos.estado_ana).
  - exact (alcancavel_bem_formado
             (alc_passo (OpCriar Exemplos.pedido_ana) alc_inicial)).
  - split; [reflexivity | vm_compute; discriminate].
Defined.




Section Moldura.

(** Get-by-id reads the row of the contact and its phone rows only. *)
Lemma obter_mesmas_linhas (e e' : Estado) (c : Contato) :
  NoDup (map c_ID (contatos (banco e))) ->
  NoDup (map c_ID (contatos (banco e'))) ->
  In c (contatos (banco e)) -> In c (contatos (banco e')) ->
  telefones_de (banco e') (c_ID c) = telefones_de (banco e) (c_ID c) ->
  obter (c_ID c) e' = obter (c_ID c) e.
Proof.
  intros H1 H2 Hc Hc' Ht.
  rewrite (@obter_existente e c H1 Hc), (@obter_existente e' c H2 Hc').
  unfold numeros_de; rewrite Ht; reflexivity.
Qed.

Lemma executar_outros o e c :
  bem_formado (banco e) -> In c (contatos (banco e)) ->
  alvo o <> Some (c_ID c) ->
  In c (contatos (banco (fst (executar o e)))) /\
  telefones_de (banco (fst (executar o e))) (c_ID c)
  = telefones_de (banco e) (c_ID c).
Proof.
  intros Hbf Hc Halvo; destruct o as [p|id p|agora id]; simpl in *.
  - destruct (pedido_valido_dec p) as [Hp|Hp];
      [|rewrite criar_invalido; auto].
    destruct (criar_sucesso e Hp) as [_ [Hcs _]].
    destruct (criar_numeros e Hbf Hp) as [Hout [_ Hnovo]].
    split; [rewrite Hcs; apply in_app_iff; auto|].
    apply Hout; intros E; apply Hnovo; rewrite <- E; apply in_map; auto.
  - assert (Hid : c_ID c <> id) by congruence.
    destruct (pedido_valido_dec p) as [Hp|Hp];
      [|rewrite atualizar_invalido; auto].
    destruct (existe_contato id (banco e)) eqn:Hex;
      [|rewrite (proj2 (atualizar_ausente id e Hp Hex)); auto].
    destruct (atualizar_existente id e Hp Hex)
      as [_ [Hcs [_ [novos [Hts [_ Hall]]]]]].
    assert (Hall' : Forall (fun t => t_IDCONTATO t = id) novos)
      by (eapply Forall_impl; [|exact Hall]; simpl; tauto).
    split.
    + rewrite Hcs; apply in_map_iff; exists c; split; auto.
      destruct (c_ID c =? id)%Z eqn:E; auto.
      apply Z.eqb_eq in E; tauto.
    + unfold telefones_de; rewrite Hts, filter_app.
      rewrite (filter_outro_id _ Hid), (filter_de_outro Hid Hall').
      apply app_nil_r.
  - assert (Hid : c_ID c <> id) by congruence.
    rewrite excluir_banco.
    destruct (delete_contato_linhas id (banco e)) as [Hcs [Hts _]].
    split.
    + rewrite Hcs; apply filter_In; split; auto.
      apply negb_true_iff, Z.eqb_neq; auto.
    + unfold telefones_de; rewrite (Hts (bf_integridade Hbf)).
      apply (filter_outro_id _ Hid).
Qed.

End Moldura.

(** X9.  A request leaves the other contacts as they were: after a POST, or
    a PUT or DELETE of another id, accepted or not, get-by-id answers for a
    stored contact what it answered before. *)
Theorem X9_outros_contatos_inalterados :
  forall (o : Operacao) (e : Estado) (id : Z),
    bem_formado (banco e) ->
    existe_contato id (banco e) = true ->
    alvo o <> Some id ->
    obter id (fst (executar o e)) = obter id e.
Proof.
  intros o e id Hbf Hex Halvo.
  apply existe_contato_In in Hex; destruct Hex as [c [Hc <-]].
  destruct (@executar_outros o e c Hbf Hc Halvo) as [Hc' Ht].
  apply obter_mesmas_linhas; auto.
  - apply Hbf.
  - apply (executar_bem_formado o e Hbf).
Qed.

Lemma X9_outros_contatos_inalterados_witness :
  obter 1 (fst (executar (OpCriar Exemplos.pedido_pontos) Exemplos.estado_ana))
  = obter 1 Exemplos.estado_ana.
Proof.
  apply (@X9_outros_contatos_inalterados (OpCriar Exemplos.pedido_pontos)
           Exemplos.estado_ana 1).
  - exact (alcancavel_bem_formado
             (alc_passo (OpCriar Exemplos.pedido_ana) alc_inicial)).
  - reflexivity.
  - discriminate.
Defined.



(** X11.  A second DELETE of an id answers 404 and changes neither the store
    nor the log, whatever the first one did: a contact is logged as deleted
    once. *)
Theorem X11_excluir_duas_vezes :
  forall (agora1 agora2 : texto) (id : Z) (e : Estado),
    status (snd (excluir agora2 id (fst (excluir agora1 id e)))) = 404 /\
    fst (excluir agora2 id (fst (excluir agora1 id e)))
    = fst (excluir agora1 id e).
Proof.
  intros agora1 agora2 id e.
  assert (H : sql_buscar id (banco (fst (excluir agora1 id e))) = None).
  { apply sql_buscar_None; rewrite excluir_banco.
    apply delete_contato_remove. }
  unfold excluir at 1 3, excluir_efeitos; rewrite H; simpl; auto.
Qed.


(** X13.  A search term without a digit finds every contact: its normalized
    form is empty and every stored number contains it, so in every state the
    server reaches a non-blank term without digits returns all the contacts
    of the store, whatever their names. *)
Theorem X13_pesquisa_sem_digitos_devolve_todos :
  forall (termo : texto) (e : Estado),
    alcancavel e ->
    JS.trim termo <> [] ->
    normalizarNumero termo = [] ->
    forall c, In c (contatos (banco e)) ->
              In (c_ID c) (map ID (contatos_da_resposta (pesquisar termo e))).
Proof.
  intros termo e He Hnb Hn c Hc.
  apply pesquisar_termo_sem_digitos; auto.
  - apply alcancavel_bem_formado; auto.
  - apply (alcancavel_com_telefone He c Hc).
Qed.

Lemma X13_pesquisa_sem_digitos_devolve_todos_witness :
  In 1%Z (map ID (contatos_da_resposta
                    (pesquisar (txt "zzz") Exemplos.estado_ana))).
Proof.
  apply (@X13_pesquisa_sem_digitos_devolve_todos (txt "zzz") Exemplos.estado_ana
           (alc_passo (OpCriar Exemplos.pedido_ana) alc_inicial)
           ltac:(vm_compute; discriminate) eq_refl
           (mkContato 1 (txt "Ana") (Some 30%Z)) (or_introl eq_refl)).
Defined.



Section TelefonesDaVerificacao.

Lemma linha_verificar ns b c :
  linha_de INNER_JOIN (onde_verificar ns) b c
  = mkLinha (c_ID c) (c_NOME c) (c_IDADE c)
      (GROUP_CONCAT (txt "||")
         (map Some (map t_NUMERO
                        (filter (telefone_duplicado ns)
                                (telefones_de b (c_ID c)))))).
Proof.
  unfold linha_de; rewrite aceitas_verificar, NUMERO_Some; reflexivity.
Qed.

(** The phones of a contact in the answer of the duplicate check. *)
Lemma verificar_so_telefones_iguais candidatos e c j :
  bem_formado (banco e) ->
  In c (contatos (banco e)) ->
  In j (contatos_da_resposta (verificar candidatos e)) ->
  ID j = c_ID c ->
  let iguais :=
    filter (telefone_duplicado (numeros_candidatos candidatos))
           (telefones_de (banco e) (c_ID c)) in
  iguais <> [] /\
  TELEFONES j
  = telefones_da_linha
      (GROUP_CONCAT (txt "||") (map Some (map t_NUMERO iguais))) /\
  (Forall (fun s => sem_barra s /\ s <> []) (map t_NUMERO iguais) ->
   TELEFONES j = map t_NUMERO iguais) /\
  (forall t, In t iguais ->
             exists tel, In tel candidatos /\
                         numero_sql (t_NUMERO t) = normalizarNumero tel).
Proof.
  intros Hbf Hc Hj Hid; simpl.
  rewrite verificar_eq in Hj; unfold contatos_da_resposta in Hj; simpl in Hj.
  destruct ((length candidatos =? 0)
            || (length (numeros_candidatos candidatos) =? 0));
    [destruct Hj|].
  apply in_map_iff in Hj; destruct Hj as [row [<- Hr]].
  apply SELECT_In in Hr; destruct Hr as [d [Hd [Hsel ->]]].
  simpl in Hid.
  assert (d = c)
    by (apply (@NoDup_map_inj _ _ c_ID _ d c (bf_contatos Hbf) Hd Hc Hid)).
  subst d; clear Hid Hd.
  rewrite selecionado_verificar in Hsel.
  rewrite linha_verificar; simpl.
  split; [apply existsb_filter_nao_vazio; exact Hsel|].
  split; [reflexivity|].
  split; [apply telefones_da_linha_sem_barra|].
  intros t Ht; apply filter_In in Ht; destruct Ht as [_ Ht].
  apply telefone_duplicado_In, numeros_candidatos_In in Ht.
  destruct Ht as [tel [H1 [H2 _]]]; exists tel; auto.
Qed.

End TelefonesDaVerificacao.

(** X15.  The duplicate check, like the search, aggregates after its WHERE
    clause: a contact of its answer comes with the phones that equal a
    candidate, of which there is at least one, and not with its other
    phones; for phones without a vertical bar the array is the list of
    those phones. *)
Theorem X15_verificar_so_telefones_iguais :
  forall (candidatos : list texto) (e : Estado) (c : Contato) (j : ContatoJson),
    bem_formado (banco e) ->
    In c (contatos (banco e)) ->
    In j (contatos_da_resposta (verificar candidatos e)) ->
    ID j = c_ID c ->
    let iguais :=
      filter (telefone_duplicado (numeros_candidatos candidatos))
             (telefones_de (banco e) (c_ID c)) in
    iguais <> [] /\
    TELEFONES j
    = telefones_da_linha
        (GROUP_CONCAT (txt "||") (map Some (map t_NUMERO iguais))) /\
    (Forall (fun s => sem_barra s /\ s <> []) (map t_NUMERO iguais) ->
     TELEFONES j = map t_NUMERO iguais) /\
    (forall t, In t iguais ->
               exists tel, In tel candidatos /\
                           numero_sql (t_NUMERO t) = normalizarNumero tel).
Proof. exact verificar_so_telefones_iguais. Qed.

Lemma X15_verificar_so_telefones_iguais_witness :
  TELEFONES (mkContatoJson 1 (txt "Davi") None [txt "(11) 3456-7890"])
  = [txt "(11) 3456-7890"].
Proof.
  pose proof (@X15_verificar_so_telefones_iguais [txt "1134567890"]
                Exemplos.estado_dois (mkContato 1 (txt "Davi") None)
                (mkContatoJson 1 (txt "Davi") None [txt "(11) 3456-7890"])
                (alcancavel_bem_formado
                   (alc_passo (OpCriar Exemplos.pedido_dois) alc_inicial))
                (or_introl eq_refl) (or_introl eq_refl) eq_refl) as H.
  destruct H as [_ [Ht _]]; exact Ht.
Defined.

Section Roteamento.
Import Rotas.




End Roteamento.


(** X17.  The foreign key holds after every SQL statement the handlers
    issue, not only after every request: from a well-formed store, any
    sequence of their INSERT, UPDATE and DELETE statements, in any order and
    with any arguments, a failed statement leaving the store as it was, ends
    in a store where every phone row references a contact row. *)
Theorem X17_integridade_por_comando :
  forall (ks : list Comando) (b : Banco),
    bem_formado b ->
    integridade (fold_left (fun b k => executar_comando k b) ks b).
Proof. exact comandos_integridade. Qed.

Lemma X17_integridade_por_comando_witness :
  integridade
    (fold_left (fun b k => executar_comando k b)
       [InsertTelefone 7 (txt "11987654321");
        InsertContato (txt "Ana") None;
        InsertTelefone 1 (txt "11987654321");
        DeleteContato 1;
        InsertTelefone 1 (txt "1134567890")]
       vazio).
Proof.
  apply (@X17_integridade_por_comando
           [InsertTelefone 7 (txt "11987654321");
            InsertContato (txt "Ana") None;
            InsertTelefone 1 (txt "11987654321");
            DeleteContato 1;
            InsertTelefone 1 (txt "1134567890")] vazio).
  exact bem_formado_vazio.
Defined.

(** * Properties of the browser controller *)

Section CampoDeTelefones.

Lemma normalizarTelefone_Numero (s : texto) :
  normalizarTelefone s = normalizarNumero s.
Proof.
  rewrite normalizarTelefone_digitos, normalizarNumero_digitos; reflexivity.
Qed.

Lemma invalido_validarTelefone (tel : texto) :
  invalido tel = negb (validarTelefone tel).
Proof.
  unfold invalido, validarTelefone; cbv zeta.
  rewrite normalizarTelefone_Numero.
  generalize (length (normalizarNumero tel)); intros n.
  destruct (Nat.ltb_spec n 10), (Nat.ltb_spec 11 n),
           (Nat.leb_spec 10 n), (Nat.leb_spec n 11);
    simpl; try reflexivity; lia.
Qed.

Lemma Map_has_In (m : Mapa) (k : texto) :
  Map_has m k = true <-> In k (map fst m).
Proof.
  unfold Map_has; rewrite existsb_exists, in_map_iff; split.
  - intros [kv [H E]]; exists kv; split; [|exact H].
    revert E; cbv beta;
      match goal with
      | |- context [list_eq_dec ?d ?x ?y] => destruct (list_eq_dec d x y)
      end;
      [auto | discriminate].
  - intros [kv [E H]]; exists kv; split; [exact H|].
    cbv beta;
      match goal with
      | |- context [list_eq_dec ?d ?x ?y] => destruct (list_eq_dec d x y)
      end; [reflexivity | contradiction].
Qed.

(** The entries the loop adds: each a phone of the list under its
    digits, which are not empty. *)
Lemma preencher_acrescenta (l : list texto) :
  forall m,
  exists novas,
    preencher m l = m ++ novas /\
    Forall (fun kv => In (snd kv) l /\ fst kv = normalizarTelefone (snd kv) /\
                      fst kv <> []) novas.
Proof.
  induction l as [|t l IH]; intros m; simpl.
  - exists []; rewrite app_nil_r; auto.
  - destruct (JS.verdadeiro (normalizarTelefone t)) eqn:Ev; simpl.
    + destruct (Map_has m (normalizarTelefone t)) eqn:Eh; simpl.
      * destruct (IH m) as [novas [E H]]; exists novas; split; auto.
        eapply Forall_impl; [|exact H]; simpl; tauto.
      * destruct (IH (Map_set m (normalizarTelefone t) t)) as [novas [E H]].
        exists ((normalizarTelefone t, t) :: novas); split.
        -- rewrite E; unfold Map_set; rewrite <- app_assoc; reflexivity.
        -- constructor.
           ++ simpl; repeat split; auto.
              intros En; rewrite En in Ev; discriminate.
           ++ eapply Forall_impl; [|exact H]; simpl; tauto.
    + destruct (IH m) as [novas [E H]]; exists novas; split; auto.
      eapply Forall_impl; [|exact H]; simpl; tauto.
Qed.

Lemma preencher_chaves (l : list texto) :
  forall m k,
    In k (map fst (preencher m l)) <->
    In k (map fst m) \/
    (k <> [] /\ exists t, In t l /\ normalizarTelefone t = k).
Proof.
  induction l as [|t l IH]; intros m k; simpl.
  - split; [auto | intros [H|[_ [t [[] _]]]]; auto].
  - destruct (JS.verdadeiro (normalizarTelefone t)) eqn:Ev; simpl.
    + destruct (Map_has m (normalizarTelefone t)) eqn:Eh; simpl;
        rewrite IH.
      * apply Map_has_In in Eh; split.
        -- intros [H|[Hk [u [Hu E]]]]; auto.
           right; split; auto; exists u; auto.
        -- intros [H|[Hk [u [[<-|Hu] E]]]]; auto.
           ++ left; rewrite <- E; exact Eh.
           ++ right; split; auto; exists u; auto.
      * unfold Map_set; rewrite map_app, in_app_iff; simpl; split.
        -- intros [[H|[H|[]]]|[Hk [u [Hu E]]]]; auto.
           ++ right; split; [|exists t; auto].
              intros En; rewrite H, En in Ev; discriminate.
           ++ right; split; auto; exists u; auto.
        -- intros [H|[Hk [u [[<-|Hu] E]]]]; auto.
           right; split; auto; exists u; auto.
    + rewrite IH; split.
      * intros [H|[Hk [u [Hu E]]]]; auto.
        right; split; auto; exists u; auto.
      * intros [H|[Hk [u [[<-|Hu] E]]]]; auto.
        -- exfalso; apply Hk; rewrite <- E.
           destruct (normalizarTelefone t); [reflexivity | discriminate].
        -- right; split; auto; exists u; auto.
Qed.

Lemma preencher_NoDup (l : list texto) :
  forall m, NoDup (map fst m) -> NoDup (map fst (preencher m l)).
Proof.
  induction l as [|t l IH]; intros m Hm; simpl; auto.
  destruct (JS.verdadeiro (normalizarTelefone t)); simpl; auto.
  destruct (Map_has m (normalizarTelefone t)) eqn:Eh; simpl; auto.
  apply IH; unfold Map_set; rewrite map_app; simpl.
  apply NoDup_app_um; auto.
  intros H; apply Map_has_In in H; congruence.
Qed.

Lemma split_classe_sem_separador cls (s : texto) :
  forall p, In p (split_classe cls s) -> forall c, In c p -> cls c = false.
Proof.
  induction s as [|d s IH]; simpl.
  - intros p [<-|[]] c [].
  - destruct (cls d) eqn:E.
    + intros p [<-|Hp] c Hc; [destruct Hc | eapply IH; eauto].
    + destruct (split_classe cls s) as [|q qs] eqn:Es.
      * intros p [<-|[]] c [<-|[]]; auto.
      * intros p [<-|Hp] c Hc.
        -- destruct Hc as [<-|Hc]; auto.
           apply (IH q (or_introl eq_refl)); auto.
        -- apply (IH p (or_intror Hp)); auto.
Qed.

(** The pieces of the field: trimmed, not empty, without a comma or a
    line break. *)
Lemma listaTelefones_partes (campo t : texto) :
  In t (listaTelefones campo) ->
  t <> [] /\ inicio_limpo t /\ fim_limpo t /\
  forall c, In c t -> eh_separador c = false.
Proof.
  unfold listaTelefones; intros H; apply filter_In in H.
  destruct H as [H Hv]; apply in_map_iff in H; destruct H as [p [<- Hp]].
  split; [intros E; rewrite E in Hv; discriminate|].
  split; [apply trim_inicio|]; split; [apply trim_fim|].
  intros c Hc; apply trim_In in Hc.
  eapply split_classe_sem_separador; eauto.
Qed.

Lemma valores_das_chaves (novas : Mapa) :
  Forall (fun kv => fst kv = normalizarTelefone (snd kv)) novas ->
  map normalizarTelefone (map snd novas) = map fst novas.
Proof.
  induction 1 as [|kv novas H _ IH]; simpl; auto.
  rewrite IH, H; reflexivity.
Qed.

(** What [listaTelefonesUnicos] is made of. *)
Lemma listaTelefonesUnicos_propriedades (campo : texto) :
  let l := listaTelefonesUnicos campo in
  (forall t, In t l ->
     In t (listaTelefones campo) /\ normalizarTelefone t <> []) /\
  NoDup (map normalizarTelefone l) /\
  (forall n, In n (map normalizarTelefone l) <->
             n <> [] /\
             exists t, In t (listaTelefones campo) /\
                       normalizarTelefone t = n).
Proof.
  unfold listaTelefonesUnicos.
  destruct (preencher_acrescenta (listaTelefones campo) []) as [novas [E H]].
  simpl in E.
  assert (Hk : Forall (fun kv => fst kv = normalizarTelefone (snd kv)) novas)
    by (eapply Forall_impl; [|exact H]; simpl; tauto).
  simpl; split; [|split].
  - intros t Ht; rewrite E in Ht; apply in_map_iff in Ht.
    destruct Ht as [kv [<- Hkv]]; rewrite Forall_forall in H.
    destruct (H kv Hkv) as [H1 [H2 H3]]; split; auto; congruence.
  - rewrite E, (valores_das_chaves Hk), <- E.
    apply preencher_NoDup; constructor.
  - intros n; rewrite E, (valores_das_chaves Hk), <- E.
    rewrite preencher_chaves; simpl; tauto.
Qed.

End CampoDeTelefones.

(** X18.  The phone list the browser sends is made of pieces of the phone
    field cut at commas and line breaks: every phone of it is such a piece,
    trimmed, not empty, with at least one digit; no two of its phones have
    the same digits; and the digit strings it covers are those of the pieces
    that have a digit, so that a piece without any digit is dropped without
    an error. *)
Theorem X18_lista_de_telefones_do_formulario :
  forall campo : texto,
    let l := listaTelefonesUnicos campo in
    (forall t, In t l ->
       In t (listaTelefones campo) /\ normalizarTelefone t <> [] /\
       t <> [] /\ inicio_limpo t /\ fim_limpo t /\
       forall c, In c t -> eh_separador c = false) /\
    NoDup (map normalizarTelefone l) /\
    (forall n, In n (map normalizarTelefone l) <->
               n <> [] /\
               exists t, In t (listaTelefones campo) /\
                         normalizarTelefone t = n).
Proof.
  intros campo.
  destruct (listaTelefonesUnicos_propriedades campo) as [H1 [H2 H3]].
  split; [|split]; auto.
  intros t Ht; destruct (H1 t Ht) as [Hin Hn].
  destruct (listaTelefones_partes campo t Hin) as [Ha [Hb [Hc Hd]]].
  repeat split; auto.
Qed.

Section FormularioEServidor.

Lemma salvar_enviar (campoNome campoTelefones nm : texto) (ts : list texto) :
  salvarContato_telefones campoNome campoTelefones = Enviar nm ts ->
  nm = JS.trim campoNome /\ nm <> [] /\
  ts = listaTelefonesUnicos campoTelefones /\
  Forall (fun t => invalido t = false) ts.
Proof.
  unfold salvarContato_telefones; cbv zeta.
  destruct (negb (JS.verdadeiro (JS.trim campoNome)) || _) eqn:E;
    [discriminate|].
  destruct (find invalido (listaTelefonesUnicos campoTelefones)) eqn:F;
    [discriminate|].
  intros H; injection H as <- <-.
  apply orb_false_iff in E; destruct E as [E _].
  repeat split; auto.
  - intros En; rewrite En in E; discriminate.
  - apply Forall_forall; intros t Ht; eapply find_none; eauto.
Qed.

Lemma unicos_aparados (campo t : texto) :
  In t (listaTelefonesUnicos campo) -> JS.trim t = t.
Proof.
  intros H.
  destruct (listaTelefonesUnicos_propriedades campo) as [H1 _].
  destruct (listaTelefones_partes campo t (proj1 (H1 t H)))
    as [_ [Ha [Hb _]]].
  apply trim_fixo; auto.
Qed.

Lemma invalidos_nenhum (ts : list texto) :
  Forall (fun t => invalido t = false) ts -> filter validarTelefone ts = ts.
Proof.
  intros H; apply filter_todos; eapply Forall_impl; [|exact H].
  intros t Ht; cbv beta in Ht; rewrite invalido_validarTelefone in Ht.
  destruct (validarTelefone t); [reflexivity | discriminate].
Qed.

Lemma sanitizar_aparados (ts : list texto) :
  Forall (fun t => JS.trim t = t) ts ->
  Forall (fun t : texto => length t <= 200) ts ->
  map sanitizar ts = ts.
Proof.
  induction 1 as [|t ts Ht _ IH]; intros Hc; simpl; auto.
  inversion Hc as [|? ? Hl Hr]; subst.
  rewrite (@sanitizar_curto t Hl), Ht, IH; auto.
Qed.

Lemma split_classe_In cls (s : texto) :
  forall p c, In p (split_classe cls s) -> In c p -> In c s.
Proof.
  induction s as [|d s IH]; simpl.
  - intros p c [<-|[]] [].
  - destruct (cls d).
    + intros p c [<-|Hp] Hc; [destruct Hc | right; eapply IH; eauto].
    + destruct (split_classe cls s) as [|q qs] eqn:Es.
      * intros p c [<-|[]] [<-|[]]; auto.
      * intros p c [<-|Hp] Hc.
        -- destruct Hc as [<-|Hc]; auto.
           right; apply (IH q c (or_introl eq_refl)); auto.
        -- right; apply (IH p c (or_intror Hp)); auto.
Qed.

Lemma listaTelefones_In (campo t : texto) (c : ascii) :
  In t (listaTelefones campo) -> In c t -> In c campo.
Proof.
  unfold listaTelefones; intros H Hc; apply filter_In in H.
  destruct H as [H _]; apply in_map_iff in H; destruct H as [p [<- Hp]].
  apply trim_In in Hc.
  apply (@trim_In campo c); eapply split_classe_In; eauto.
Qed.

Lemma sem_digitos_nenhum (campo : texto) :
  normalizarTelefone campo = [] -> listaTelefonesUnicos campo = [].
Proof.
  intros H.
  destruct (listaTelefonesUnicos_propriedades campo) as [H1 _].
  destruct (listaTelefonesUnicos campo) as [|t l]; auto.
  destruct (H1 t (or_introl eq_refl)) as [Hin Hn].
  exfalso; apply Hn.
  rewrite normalizarTelefone_digitos in *.
  destruct (filter JS.eh_digito t) as [|c r] eqn:E; auto.
  assert (Hc : In c (filter JS.eh_digito t)) by (rewrite E; left; auto).
  apply filter_In in Hc; destruct Hc as [Hc Hd].
  assert (Hf : In c (filter JS.eh_digito campo)).
  { apply filter_In; split; auto; eapply listaTelefones_In; eauto. }
  rewrite H in Hf; destruct Hf.
Qed.

End FormularioEServidor.

(** X19.  The browser and the server agree on the phones of a save: when
    [salvarContato] gets past its validation of the name and phone fields,
    the server's filter keeps every phone of the list it sends; and when
    the list is not empty and the server accepts name and age, the create
    handler answers 201 with the new id and stores, for the new contact,
    the sanitized phones of the list in order, which are the phones
    themselves when none is longer than 200 code units. *)
Theorem X19_formulario_aceito_pelo_servidor :
  forall (campoNome campoTelefones nm : texto) (ts : list texto),
    salvarContato_telefones campoNome campoTelefones = Enviar nm ts ->
    filter validarTelefone ts = ts /\
    forall (i : option Z) (e : Estado),
      validarContato nm i = [] -> ts <> [] -> bem_formado (banco e) ->
      let p := mkPedido nm i ts in
      let cid := proximo_id (seq_contato (banco e))
                            (map c_ID (contatos (banco e))) in
      snd (criar p e) = mkResposta 201 (CId cid) /\
      numeros_de (banco (fst (criar p e))) cid = map sanitizar ts /\
      (Forall (fun t : texto => length t <= 200) ts ->
       numeros_de (banco (fst (criar p e))) cid = ts).
Proof.
  intros campoNome campoTelefones nm ts H.
  destruct (salvar_enviar _ _ H) as [_ [_ [Hts Hinv]]].
  pose proof (invalidos_nenhum Hinv) as Hf.
  split; auto.
  intros i e Hv Hne Hbf p cid.
  assert (Hp : pedido_valido p).
  { split; simpl; auto; rewrite Hf; auto. }
  destruct (criar_sucesso e Hp) as [Hr _].
  destruct (criar_numeros e Hbf Hp) as [_ [Hn _]].
  simpl in Hn; rewrite Hf in Hn.
  split; [exact Hr|]; split; [exact Hn|].
  intros Hc; fold cid in Hn; rewrite Hn.
  apply sanitizar_aparados; auto.
  apply Forall_forall; intros t Ht; rewrite Hts in Ht.
  eapply unicos_aparados; eauto.
Qed.

Lemma X19_formulario_aceito_pelo_servidor_witness :
  salvarContato_telefones (txt " Ana ") (txt "(11) 98765-4321, 1133334444")
  = Enviar (txt "Ana") [txt "(11) 98765-4321"; txt "1133334444"] /\
  filter validarTelefone [txt "(11) 98765-4321"; txt "1133334444"]
  = [txt "(11) 98765-4321"; txt "1133334444"].
Proof.
  split; [vm_compute; reflexivity|].
  apply (proj1 (@X19_formulario_aceito_pelo_servidor
                  (txt " Ana ") (txt "(11) 98765-4321, 1133334444")
                  (txt "Ana") [txt "(11) 98765-4321"; txt "1133334444"]
                  eq_refl)).
Defined.

(** X20.  A phone field that has text but no digit gets past the browser's
    validation with an empty phone list: no piece of the field has a digit,
    so none enters the list and the length check has nothing to refuse.
    The duplicate check of the empty list finds nothing, and the create
    handler, when it accepts name and age, answers 400 (phone required) and
    stores nothing. *)
Theorem X20_campo_de_telefones_sem_digitos :
  forall campoNome campoTelefones : texto,
    JS.trim campoNome <> [] -> JS.trim campoTelefones <> [] ->
    normalizarTelefone campoTelefones = [] ->
    salvarContato_telefones campoNome campoTelefones
    = Enviar (JS.trim campoNome) [] /\
    forall (i : option Z) (e : Estado),
      contatos_da_resposta (verificar [] e) = [] /\
      (validarContato (JS.trim campoNome) i = [] ->
       criar (mkPedido (JS.trim campoNome) i []) e
       = (e, mkResposta 400 (CErro [TelefoneObrigatorio]))).
Proof.
  intros campoNome campoTelefones Hn Ht Hd; split.
  - unfold salvarContato_telefones; cbv zeta.
    rewrite (sem_digitos_nenhum _ Hd).
    destruct (JS.trim campoNome); [tauto|].
    destruct (JS.trim campoTelefones); [tauto|]; reflexivity.
  - intros i e; split; [reflexivity|].
    intros Hv; rewrite criar_eq; simpl; rewrite Hv; reflexivity.
Qed.

Lemma X20_campo_de_telefones_sem_digitos_witness :
  salvarContato_telefones (txt " Ana ") (txt "a definir")
  = Enviar (txt "Ana") [].
Proof.
  apply (proj1 (@X20_campo_de_telefones_sem_digitos
                  (txt " Ana ") (txt "a definir")
                  ltac:(vm_compute; discriminate)
                  ltac:(vm_compute; discriminate)
                  eq_refl)).
Defined.

Section EdicaoEMescla.

Lemma split_classe_inteiro cls (p : texto) :
  Forall (fun c => cls c = false) p -> split_classe cls p = [p].
Proof.
  induction 1 as [|c p Hc _ IH]; simpl; auto.
  rewrite Hc, IH; reflexivity.
Qed.

Lemma split_classe_corte cls (p r : texto) (d : ascii) :
  Forall (fun c => cls c = false) p -> cls d = true ->
  split_classe cls (p ++ d :: r) = p :: split_classe cls r.
Proof.
  intros H Hd; induction H as [|c p Hc _ IH]; simpl.
  - rewrite Hd; reflexivity.
  - rewrite Hc, IH; reflexivity.
Qed.

Lemma split_classe_join (l : list texto) :
  l <> [] ->
  Forall (fun p => Forall (fun c => eh_separador c = false) p) l ->
  split_classe eh_separador (JS.join [ascii_of_nat 10] l) = l.
Proof.
  induction l as [|p l IH]; [tauto|].
  intros _ H; inversion H as [|? ? Hp Hl]; subst.
  destruct l as [|q l].
  - simpl; apply split_classe_inteiro; auto.
  - change (JS.join [ascii_of_nat 10] (p :: q :: l))
      with (p ++ ascii_of_nat 10 :: JS.join [ascii_of_nat 10] (q :: l)).
    rewrite split_classe_corte; auto.
    rewrite IH; auto; discriminate.
Qed.

Lemma join_inicio sep (p : texto) (ps : list texto) :
  p <> [] -> inicio_limpo p -> inicio_limpo (JS.join sep (p :: ps)).
Proof.
  intros Hne H; destruct ps as [|q ps]; simpl; auto.
  apply inicio_limpo_app; auto.
Qed.

Lemma join_fim sep (l : list texto) :
  Forall (fun p => p <> [] /\ fim_limpo p) l -> fim_limpo (JS.join sep l).
Proof.
  induction 1 as [|p l [Hne Hp] Hl IH]; [exact I|].
  destruct l as [|q l]; [exact Hp|].
  change (JS.join sep (p :: q :: l))
    with (p ++ sep ++ JS.join sep (q :: l)).
  unfold fim_limpo in *; rewrite !rev_app_distr, <- app_assoc.
  apply inicio_limpo_app; auto.
  intros E; apply (f_equal (@rev ascii)) in E.
  rewrite rev_involutive in E; simpl in E.
  inversion Hl as [|? ? [Hq _] _]; subst.
  exact (join_nao_vazio sep l Hq E).
Qed.

Lemma map_fixo {A} (f : A -> A) (l : list A) :
  Forall (fun x => f x = x) l -> map f l = l.
Proof. induction 1 as [|x l Hx _ IH]; simpl; congruence. Qed.

(** Phones with digits, no two with the same digits, all enter the map. *)
Lemma preencher_distintos (l : list texto) :
  Forall (fun t => normalizarTelefone t <> []) l ->
  NoDup (map normalizarTelefone l) ->
  forall m,
    (forall t, In t l -> ~ In (normalizarTelefone t) (map fst m)) ->
    preencher m l = m ++ map (fun t => (normalizarTelefone t, t)) l.
Proof.
  induction 1 as [|t l Ht _ IH]; intros Hnd m Hm; simpl.
  - rewrite app_nil_r; reflexivity.
  - inversion Hnd as [|? ? Hnt Hnd']; subst.
    destruct (normalizarTelefone t) as [|d n] eqn:En; [tauto|].
    cbn [JS.verdadeiro negb].
    destruct (Map_has m (d :: n)) eqn:Eh.
    + apply Map_has_In in Eh; exfalso.
      apply (Hm t (or_introl eq_refl)); rewrite En; exact Eh.
    + cbn [negb]; rewrite IH; auto.
      * unfold Map_set; rewrite <- app_assoc; reflexivity.
      * intros u Hu; unfold Map_set; rewrite map_app, in_app_iff; simpl.
        intros [H|[H|[]]]; [apply (Hm u (or_intror Hu)); exact H|].
        apply Hnt; rewrite H; apply in_map; exact Hu.
Qed.

Lemma listaTelefones_join (l : list texto) :
  Forall (fun t => t <> [] /\ inicio_limpo t /\ fim_limpo t /\
                   Forall (fun c => eh_separador c = false) t) l ->
  listaTelefones (JS.join [ascii_of_nat 10] l) = l.
Proof.
  intros H; unfold listaTelefones.
  destruct l as [|p l]; [reflexivity|].
  assert (Ht : JS.trim (JS.join [ascii_of_nat 10] (p :: l)) = JS.join [ascii_of_nat 10] (p :: l)).
  { apply trim_fixo.
    - inversion H as [|? ? [Hne [Hi _]] _]; subst.
      apply join_inicio; auto.
    - apply join_fim; eapply Forall_impl; [|exact H].
      cbv beta; tauto. }
  rewrite Ht, split_classe_join; [|discriminate|].
  - rewrite map_fixo.
    + apply filter_todos; eapply Forall_impl; [|exact H].
      intros t [Hne _]; destruct t; [tauto | reflexivity].
    + eapply Forall_impl; [|exact H].
      intros t [_ [Hi [Hf _]]]; apply trim_fixo; auto.
  - eapply Forall_impl; [|exact H]; cbv beta; tauto.
Qed.

Lemma unicos_join (l : list texto) :
  Forall (fun t => inicio_limpo t /\ fim_limpo t /\
                   Forall (fun c => eh_separador c = false) t /\
                   normalizarTelefone t <> []) l ->
  NoDup (map normalizarTelefone l) ->
  listaTelefonesUnicos (JS.join [ascii_of_nat 10] l) = l.
Proof.
  intros H Hnd; unfold listaTelefonesUnicos.
  rewrite listaTelefones_join.
  - rewrite preencher_distintos; auto.
    + simpl; rewrite map_map; simpl; apply map_id.
    + eapply Forall_impl; [|exact H]; cbv beta; tauto.
  - eapply Forall_impl; [|exact H].
    intros t [Hi [Hf [Hs Hn]]]; repeat split; auto.
    intros E; rewrite E in Hn; apply Hn; reflexivity.
Qed.

Lemma existsb_igual (v : list texto) (x : texto) :
  existsb (fun y => if list_eq_dec ascii_dec y x then true else false) v
  = true <-> In x v.
Proof.
  rewrite existsb_exists; split.
  - intros [y [Hy E]]; revert E; cbv beta.
    match goal with
    | |- context [list_eq_dec ?d ?a ?b] => destruct (list_eq_dec d a b)
    end; [subst; auto | discriminate].
  - intros H; exists x; split; auto; cbv beta.
    match goal with
    | |- context [list_eq_dec ?d ?a ?b] => destruct (list_eq_dec d a b)
    end; [reflexivity | contradiction].
Qed.

Lemma Set_de_elementos (xs : list texto) :
  forall v,
    NoDup (Set_de v xs) /\
    forall x, In x (Set_de v xs) <-> In x xs /\ ~ In x v.
Proof.
  induction xs as [|y xs IH]; intros v; simpl.
  - split; [constructor | intros x; tauto].
  - match goal with
    | |- context [existsb ?f v] => destruct (existsb f v) eqn:E
    end.
    + apply existsb_igual in E.
      destruct (IH v) as [Hn Hx]; split; auto.
      intros x; rewrite Hx; split; [tauto|].
      intros [[Hyx|H] Hv]; [subst; tauto | tauto].
    + assert (Hy : ~ In y v).
      { intros H; apply existsb_igual in H; congruence. }
      destruct (IH (y :: v)) as [Hn Hx]; split.
      * constructor; auto; rewrite Hx; simpl; tauto.
      * intros x; simpl; rewrite Hx; simpl; split.
        -- intros [Hyx|[H1 H2]]; [subst; tauto | tauto].
        -- intros [[Hyx|H] Hv]; auto.
           destruct (list_eq_dec ascii_dec y x) as [Hyx|Hyx]; auto.
           right; split; auto; intros [Hyx'|Hv']; auto.
Qed.

End EdicaoEMescla.

(** X21.  Opening a contact for edition and saving it keeps its phones:
    when the phones of the contact are trimmed, hold no comma and no line
    break, have a digit each and have pairwise different digits, the form
    field filled with them joined by line breaks is read back by
    [salvarContato] as the same list, in the same order. *)
Theorem X21_edicao_preserva_telefones :
  forall l : list texto,
    Forall (fun t => inicio_limpo t /\ fim_limpo t /\
                     Forall (fun c => eh_separador c = false) t /\
                     normalizarTelefone t <> []) l ->
    NoDup (map normalizarTelefone l) ->
    listaTelefonesUnicos (JS.join [ascii_of_nat 10] l) = l.
Proof. exact unicos_join. Qed.

Lemma X21_edicao_preserva_telefones_witness :
  listaTelefonesUnicos
    (JS.join [ascii_of_nat 10] [txt "(11) 98765-4321"; txt "1133334444"])
  = [txt "(11) 98765-4321"; txt "1133334444"].
Proof.
  apply X21_edicao_preserva_telefones.
  - repeat apply Forall_cons; try apply Forall_nil;
      (split; [vm_compute; reflexivity|]);
      (split; [vm_compute; reflexivity|]);
      (split; [|vm_compute; discriminate]);
      repeat apply Forall_cons; try apply Forall_nil; reflexivity.
  - vm_compute; repeat constructor; simpl; intuition discriminate.
Defined.

(** X22.  The merge of the duplicate modal loses no number and repeats
    none: the list it writes back to the phone field has no string twice and
    holds the non-blank lines of the field and the new numbers, nothing
    else. *)
Theorem X22_mescla_sem_repeticao :
  forall (campo : texto) (novosNumeros : list texto),
    NoDup (todosNumeros campo novosNumeros) /\
    forall x,
      In x (todosNumeros campo novosNumeros) <->
      In x (telefonesExistentes campo) \/ In x novosNumeros.
Proof.
  intros campo novosNumeros; unfold todosNumeros.
  destruct (Set_de_elementos (telefonesExistentes campo ++ novosNumeros) [])
    as [Hn Hx].
  split; auto.
  intros x; rewrite Hx, in_app_iff; simpl; tauto.
Qed.

(** * Properties of the export *)

Section LinhasDoCsv.

Lemma replace_sem_mais cls novo (s : texto) :
  forall dentro,
    JS.replace_classe false cls novo dentro s
    = flat_map (fun c => if cls c then novo else [c]) s.
Proof.
  induction s as [|c s IH]; intros dentro; simpl; auto.
  destruct (cls c); simpl; rewrite IH; reflexivity.
Qed.

(** The body of an escaped field: every quote doubled. *)
Lemma escape_eq (val : texto) :
  escape val
  = aspas :: flat_map (fun c => if Ascii.eqb c aspas
                                then [aspas; aspas] else [c]) val
          ++ [aspas].
Proof. unfold escape; rewrite replace_sem_mais; reflexivity. Qed.

(** An escaped body is closed by the first quote that is followed by
    something else than a quote. *)
Lemma corpo_fechado (s s' r r' : texto) (d : ascii) :
  d <> aspas ->
  let dobra := flat_map (fun c => if Ascii.eqb c aspas
                                  then [aspas; aspas] else [c]) in
  dobra s ++ aspas :: d :: r = dobra s' ++ aspas :: d :: r' ->
  s = s' /\ r = r'.
Proof.
  intros Hd dobra; revert s'.
  induction s as [|c s IH]; intros [|c' s']; cbn -[Ascii.eqb aspas].
  - intros H; injection H as ->; auto.
  - destruct (Ascii.eqb_spec c' aspas) as [E|E]; cbn -[Ascii.eqb aspas];
      intros H; injection H; intros; subst; tauto.
  - destruct (Ascii.eqb_spec c aspas) as [E|E]; cbn -[Ascii.eqb aspas];
      intros H; injection H; intros; subst; tauto.
  - destruct (Ascii.eqb_spec c aspas) as [E|E],
             (Ascii.eqb_spec c' aspas) as [E'|E'];
      cbn -[Ascii.eqb aspas]; intros H; injection H; intros; subst;
      try tauto.
    + destruct (IH s') as [-> ->]; auto.
    + destruct (IH s') as [-> ->]; auto.
Qed.

Lemma corpo_final (s s' : texto) :
  let dobra := flat_map (fun c => if Ascii.eqb c aspas
                                  then [aspas; aspas] else [c]) in
  dobra s = dobra s' -> s = s'.
Proof.
  intros dobra; revert s'.
  induction s as [|c s IH]; intros [|c' s']; cbn -[Ascii.eqb aspas]; auto.
  - destruct (Ascii.eqb_spec c' aspas); discriminate.
  - destruct (Ascii.eqb_spec c aspas); discriminate.
  - destruct (Ascii.eqb_spec c aspas) as [E|E],
             (Ascii.eqb_spec c' aspas) as [E'|E'];
      cbn -[Ascii.eqb aspas]; intros H; injection H; intros; subst;
      try tauto; f_equal; auto.
Qed.

Lemma escape_inj (s s' : texto) : escape s = escape s' -> s = s'.
Proof.
  rewrite !escape_eq; intros H; injection H as H.
  apply app_inv_tail in H; apply corpo_final; exact H.
Qed.

(** A field without the separator ends at the first separator. *)
Lemma campo_sem_virgula (a a' r r' : texto) (v : ascii) :
  ~ In v a -> ~ In v a' -> a ++ v :: r = a' ++ v :: r' -> a = a' /\ r = r'.
Proof.
  revert a'; induction a as [|c a IH]; intros [|c' a']; simpl.
  - intros _ _ H; injection H as ->; auto.
  - intros _ Hn H; injection H as -> _; tauto.
  - intros Hn _ H; injection H as -> _; tauto.
  - intros Hn Hn' H; injection H as -> H.
    destruct (IH a') as [-> ->]; auto.
Qed.

Lemma uint_so_digitos (d : Decimal.uint) (c : ascii) :
  In c (txt (NilEmpty.string_of_uint d)) -> JS.eh_digito c = true.
Proof.
  unfold txt; induction d; simpl; try tauto;
    intros [<-|H]; auto.
Qed.

Lemma texto_de_Z_caracteres (z : Z) (c : ascii) :
  In c (texto_de_Z z) -> JS.eh_digito c = true \/ c = "-"%char.
Proof.
  unfold texto_de_Z; destruct z as [|p|p]; simpl.
  - intros [<-|[]]; auto.
  - pose proof (Unsigned.to_uint_nonnil p) as Hn.
    unfold NilZero.string_of_uint.
    destruct (Pos.to_uint p) eqn:E; [tauto| | | | | | | | | |];
      intros H; left; eapply uint_so_digitos; exact H.
  - pose proof (Unsigned.to_uint_nonnil p) as Hn.
    unfold txt; simpl; intros [<-|H]; auto.
    unfold NilZero.string_of_uint in H.
    destruct (Pos.to_uint p) eqn:E; [tauto| | | | | | | | | |];
      left; eapply uint_so_digitos; exact H.
Qed.

Lemma texto_de_Z_sem_virgula (z : Z) : ~ In ","%char (texto_de_Z z).
Proof.
  intros H; apply texto_de_Z_caracteres in H.
  destruct H as [H|H]; discriminate.
Qed.

Lemma texto_de_Z_inj (z z' : Z) : texto_de_Z z = texto_de_Z z' -> z = z'.
Proof.
  unfold texto_de_Z, txt; intros H.
  apply (f_equal string_of_list_ascii) in H.
  rewrite !string_of_list_ascii_of_string in H.
  apply (f_equal NilZero.int_of_string) in H.
  assert (Hz : forall n, NilZero.int_of_string
                           (NilZero.string_of_int (Z.to_int n))
                         = Some (Z.to_int n)).
  { intros n; apply NilZero.isi; destruct n as [|p|p]; simpl;
      try discriminate;
      intros Hc; injection Hc; apply Unsigned.to_uint_nonnil. }
  rewrite !Hz in H; injection H as H.
  apply DecimalZ.to_int_inj; exact H.
Qed.

Lemma texto_de_Z_nao_vazio (z : Z) : texto_de_Z z <> [].
Proof.
  unfold texto_de_Z, txt; destruct z as [|p|p]; simpl; try discriminate.
  pose proof (Unsigned.to_uint_nonnil p) as Hn.
  unfold NilZero.string_of_uint.
  destruct (Pos.to_uint p); [tauto| | | | | | | | | |]; discriminate.
Qed.

Lemma idade_ou_vazio_sem_virgula (i : option Z) :
  ~ In ","%char (idade_ou_vazio i).
Proof. destruct i; simpl; [apply texto_de_Z_sem_virgula | tauto]. Qed.

Lemma idade_ou_vazio_inj (i i' : option Z) :
  idade_ou_vazio i = idade_ou_vazio i' -> i = i'.
Proof.
  destruct i as [z|], i' as [z'|]; simpl; intros H; auto.
  - f_equal; apply texto_de_Z_inj; exact H.
  - exfalso; exact (@texto_de_Z_nao_vazio _ H).
  - exfalso; symmetry in H; exact (@texto_de_Z_nao_vazio _ H).
Qed.

(** A line of the file gives back its four fields. *)
Lemma linha_csv_campos (i i' : Z) (n n' : texto) (a a' : option Z)
      (f f' : texto) :
  JS.join (txt ",") [texto_de_Z i; escape n; idade_ou_vazio a; f]
  = JS.join (txt ",") [texto_de_Z i'; escape n'; idade_ou_vazio a'; f'] ->
  i = i' /\ n = n' /\ a = a' /\ f = f'.
Proof.
  cbn [JS.join txt list_ascii_of_string app]; intros H.
  apply campo_sem_virgula in H; try apply texto_de_Z_sem_virgula.
  destruct H as [Hi H]; apply texto_de_Z_inj in Hi.
  rewrite !escape_eq in H; injection H as H.
  rewrite <- !app_assoc in H; cbn [app] in H.
  apply corpo_fechado in H; [|discriminate].
  destruct H as [Hn H].
  apply campo_sem_virgula in H; try apply idade_ou_vazio_sem_virgula.
  destruct H as [Ha Hf]; apply idade_ou_vazio_inj in Ha; auto.
Qed.

Lemma escape_nao_vazio (s : texto) : escape s <> [].
Proof. rewrite escape_eq; discriminate. Qed.

Lemma linhas_dos_telefones (i i' : Z) (n n' : texto) (a a' : option Z)
      (ts : list texto) :
  forall ts',
    map (fun tel => JS.join (txt ",")
                      [texto_de_Z i; escape n; idade_ou_vazio a; escape tel])
        ts
    = map (fun tel => JS.join (txt ",")
                        [texto_de_Z i'; escape n'; idade_ou_vazio a';
                         escape tel]) ts' ->
    ts = ts' /\ (ts <> [] -> i = i' /\ n = n' /\ a = a').
Proof.
  induction ts as [|t ts IH]; intros [|t' ts']; simpl; try discriminate.
  - tauto.
  - intros H; injection H as H Hr.
    apply linha_csv_campos in H; destruct H as [Hi [Hn [Ha Ht]]].
    apply escape_inj in Ht; destruct (IH ts' Hr) as [-> _]; subst.
    split; auto.
Qed.

Lemma linhas_do_contato_inj (c c' : ContatoJson) :
  linhas_do_contato c = linhas_do_contato c' -> c = c'.
Proof.
  destruct c as [i n a ts], c' as [i' n' a' ts'].
  unfold linhas_do_contato; cbn [ID NOME IDADE TELEFONES].
  destruct ts as [|t ts], ts' as [|t' ts'];
    cbn [length Nat.eqb map].
  - intros H; injection H as H.
    apply linha_csv_campos in H; destruct H as [-> [-> [-> _]]]; auto.
  - intros H; injection H as H _.
    apply linha_csv_campos in H; destruct H as [_ [_ [_ H]]].
    symmetry in H; exfalso; exact (@escape_nao_vazio _ H).
  - intros H; injection H as H _.
    apply linha_csv_campos in H; destruct H as [_ [_ [_ H]]].
    exfalso; exact (@escape_nao_vazio _ H).
  - intros H.
    apply (@linhas_dos_telefones i i' n n' a a' (t :: ts) (t' :: ts')) in H.
    destruct H as [Ht H]; destruct H as [-> [-> ->]]; [discriminate|].
    rewrite Ht; reflexivity.
Qed.


End LinhasDoCsv.

(** X23.  The CSV export keeps apart what differs: the quoting of a field
    is injective, and the lines written for a contact (one per phone, or one
    with an empty phone field) determine its id, name, age and phone list,
    whatever quotes, commas or line breaks the name and the phones hold. *)
Theorem X23_csv_sem_perda :
  (forall s s' : texto, escape s = escape s' -> s = s') /\
  (forall c c' : ContatoJson,
     linhas_do_contato c = linhas_do_contato c' -> c = c').
Proof. split; [exact escape_inj | exact linhas_do_contato_inj]. Qed.


Section FormatoDaExportacao.

Lemma toLowerCase_idem (s : texto) :
  toLowerCase (toLowerCase s) = toLowerCase s.
Proof.
  unfold toLowerCase; rewrite map_map; apply map_ext; intros c.
  destruct c as [[] [] [] [] [] [] [] []]; vm_compute; reflexivity.
Qed.

Lemma toLowerCase_verdadeiro (s : texto) :
  JS.verdadeiro (toLowerCase s) = JS.verdadeiro s.
Proof. destruct s; reflexivity. Qed.

Lemma exportar_minusculas (f : texto) (e : Estado) :
  exportar (Some (toLowerCase f)) e = exportar (Some f) e.
Proof.
  unfold exportar; rewrite toLowerCase_verdadeiro.
  destruct (JS.verdadeiro f); [rewrite toLowerCase_idem|]; reflexivity.
Qed.

Lemma exportar_outro_formato (f : texto) (e : Estado) :
  toLowerCase f <> txt "json" -> toLowerCase f <> txt "txt" ->
  exportar (Some f) e
  = ArquivoCsv (JS.join [ascii_of_nat 10]
                  (linhasCsv (contatos_da_resposta (listar e)))).
Proof.
  intros Hj Ht; unfold exportar; cbv zeta.
  destruct (JS.verdadeiro f).
  - destruct (list_eq_dec ascii_dec (toLowerCase f) (txt "json"));
      [contradiction|].
    destruct (list_eq_dec ascii_dec (toLowerCase f) (txt "txt"));
      [contradiction|]; reflexivity.
  - reflexivity.
Qed.

End FormatoDaExportacao.

Section RepetirAtualizacao.

Lemma map_atualiza_idem (id : Z) (n : texto) (i : option Z)
      (cs : list Contato) :
  let f := fun c => if (c_ID c =? id)%Z then mkContato (c_ID c) n i else c in
  map f (map f cs) = map f cs.
Proof.
  intros f; rewrite map_map; apply map_ext; intros c; unfold f.
  destruct (c_ID c =? id)%Z eqn:E; simpl; rewrite E; reflexivity.
Qed.

Lemma map_atualiza_ids (id : Z) (n : texto) (i : option Z)
      (cs : list Contato) :
  map c_ID (map (fun c => if (c_ID c =? id)%Z
                          then mkContato (c_ID c) n i else c) cs)
  = map c_ID cs.
Proof.
  rewrite map_map; apply map_ext; intros c.
  destruct (c_ID c =? id)%Z; reflexivity.
Qed.

Lemma filter_id_negado (id : Z) (ts : list Telefone) :
  filter (fun t => (t_IDCONTATO t =? id)%Z)
         (filter (fun t => negb (t_IDCONTATO t =? id)%Z) ts) = [].
Proof.
  induction ts as [|t ts IH]; simpl; auto.
  destruct (t_IDCONTATO t =? id)%Z eqn:E; simpl; auto.
  rewrite E; exact IH.
Qed.

(** The stored numbers after a PUT that went through. *)
Lemma atualizar_numeros id p e :
  pedido_valido p -> existe_contato id (banco e) = true ->
  forall i,
    numeros_de (banco (fst (atualizar id p e))) i
    = if (i =? id)%Z
      then map sanitizar (filter validarTelefone (telefones_pedido p))
      else numeros_de (banco e) i.
Proof.
  intros Hp Hex i.
  destruct (@atualizar_existente id p e Hp Hex) as [_ [_ [_ [novos [Ht [Hm Hall]]]]]].
  assert (Hid : Forall (fun t => t_IDCONTATO t = id) novos)
    by (eapply Forall_impl; [|exact Hall]; simpl; tauto).
  unfold numeros_de, telefones_de; rewrite Ht, filter_app, map_app.
  destruct (Z.eqb_spec i id) as [->|Hne].
  - rewrite (@filter_do_id id novos Hid), Hm.
    rewrite filter_id_negado; reflexivity.
  - rewrite (@filter_outro_id i id _ Hne).
    rewrite (@filter_de_outro i id novos Hne Hid); simpl.
    rewrite app_nil_r; reflexivity.
Qed.

Lemma obter_pelos_dados (e e' : Estado) (i : Z) :
  bem_formado (banco e) -> bem_formado (banco e') ->
  contatos (banco e') = contatos (banco e) ->
  numeros_de (banco e') i = numeros_de (banco e) i ->
  obter i e' = obter i e.
Proof.
  intros Hbf Hbf' Hc Hn.
  destruct (existe_contato i (banco e)) eqn:Ex.
  - apply existe_contato_In in Ex; destruct Ex as [c [Hin <-]].
    rewrite (@obter_existente e c (bf_contatos Hbf) Hin).
    assert (Hin' : In c (contatos (banco e'))) by (rewrite Hc; exact Hin).
    rewrite (@obter_existente e' c (bf_contatos Hbf') Hin'), Hn.
    reflexivity.
  - rewrite (@obter_ausente i e Ex).
    apply obter_ausente; unfold existe_contato in *; rewrite Hc; exact Ex.
Qed.

Lemma atualizar_repetido id p e :
  bem_formado (banco e) ->
  let e1 := fst (atualizar id p e) in
  let e2 := fst (atualizar id p e1) in
  snd (atualizar id p e1) = snd (atualizar id p e) /\
  contatos (banco e2) = contatos (banco e1) /\
  (forall i, numeros_de (banco e2) i = numeros_de (banco e1) i) /\
  log e2 = log e1 /\
  (forall i, obter i e2 = obter i e1).
Proof.
  intros Hbf e1 e2.
  assert (Hbf1 : bem_formado (banco e1)) by (apply atualizar_bem_formado; auto).
  assert (Hbf2 : bem_formado (banco e2)) by (apply atualizar_bem_formado; auto).
  assert (H : snd (atualizar id p e1) = snd (atualizar id p e) /\
              contatos (banco e2) = contatos (banco e1) /\
              (forall i, numeros_de (banco e2) i = numeros_de (banco e1) i) /\
              log e2 = log e1).
  { destruct (pedido_valido_dec p) as [Hp|Hp].
    - destruct (existe_contato id (banco e)) eqn:Ex.
      + destruct (@atualizar_existente id p e Hp Ex) as [Hr [Hc [Hl _]]].
        assert (Ex1 : existe_contato id (banco e1) = true).
        { apply existe_contato_ids; unfold e1; rewrite Hc, map_atualiza_ids.
          apply existe_contato_ids; exact Ex. }
        destruct (@atualizar_existente id p e1 Hp Ex1) as [Hr1 [Hc1 [Hl1 _]]].
        split; [rewrite Hr1, Hr; reflexivity|].
        split; [|split; [|exact Hl1]].
        * unfold e2; rewrite Hc1; unfold e1; rewrite Hc.
          apply map_atualiza_idem.
        * intros i; unfold e2.
          rewrite (@atualizar_numeros id p e1 Hp Ex1 i).
          unfold e1; rewrite (@atualizar_numeros id p e Hp Ex i).
          destruct (i =? id)%Z; reflexivity.
      + destruct (@atualizar_ausente id p e Hp Ex) as [_ He].
        unfold e2, e1; rewrite !He; auto.
    - pose proof (@atualizar_invalido id p e Hp) as He.
      unfold e2, e1; rewrite !He; auto. }
  destruct H as [H1 [H2 [H3 H4]]]; repeat split; auto.
  intros i; apply obter_pelos_dados; auto.
Qed.

End RepetirAtualizacao.

(** X25.  The export reads its format without regard to case, and a format
    that is neither json nor txt gives the CSV of the contacts the list
    handler returns, not an error. *)
Theorem X25_formato_da_exportacao :
  forall (f : texto) (e : Estado),
    exportar (Some (toLowerCase f)) e = exportar (Some f) e /\
    (toLowerCase f <> txt "json" -> toLowerCase f <> txt "txt" ->
     exportar (Some f) e
     = ArquivoCsv (JS.join [ascii_of_nat 10]
                     (linhasCsv (contatos_da_resposta (listar e))))).
Proof.
  intros f e; split;
    [apply exportar_minusculas | apply exportar_outro_formato].
Qed.

(** X26.  PUT is idempotent on what the server shows: sending the same
    update of the same id a second time gives the same answer and leaves
    the contact rows, the stored numbers of every contact, the deletion log
    and the answer of get-by-id for every id as the first update left
    them. *)
Theorem X26_atualizar_idempotente :
  forall (id : Z) (p : Pedido) (e : Estado),
    bem_formado (banco e) ->
    let e1 := fst (atualizar id p e) in
    let e2 := fst (atualizar id p e1) in
    snd (atualizar id p e1) = snd (atualizar id p e) /\
    contatos (banco e2) = contatos (banco e1) /\
    (forall i, numeros_de (banco e2) i = numeros_de (banco e1) i) /\
    log e2 = log e1 /\
    (forall i, obter i e2 = obter i e1).
Proof. exact atualizar_repetido. Qed.

Lemma X26_atualizar_idempotente_witness :
  snd (atualizar 1 Exemplos.pedido_dois
         (fst (atualizar 1 Exemplos.pedido_dois Exemplos.estado_ana)))
  = snd (atualizar 1 Exemplos.pedido_dois Exemplos.estado_ana).
Proof.
  apply (proj1 (@X26_atualizar_idempotente 1 Exemplos.pedido_dois
                  Exemplos.estado_ana
                  (alcancavel_bem_formado
                     (alc_passo (OpCriar Exemplos.pedido_ana) alc_inicial)))).
Defined.
